(** * apigrate/tdameritrade: the connector of [src/index.js]

    A shallow embedding of [TDAConnector]: the credential state, the token
    exchanges and the request executor [doFetch] with its refresh-and-retry
    branch.  Asynchronous code is run to completion one call at a time
    (the connector coordinates nothing between in-flight calls), so an
    [async] method is a function from the world before the call to its
    outcome: a value, a thrown error, or no outcome at all. *)

From Stdlib Require Import Ascii String DecimalString ZArith List Bool Lia.
Import ListNotations.
Local Open Scope string_scope.
Local Open Scope Z_scope.
Set Warnings "-register-all".

(** ** JavaScript values *)

(** The values that travel through the connector: what [response.json()]
    yields, what the credential initializer resolves to, the arguments of
    the public methods.  Numbers are kept as integers. *)
Inductive JsValue : Type :=
| JsUndefined
| JsNull
| JsBool (b : bool)
| JsNumber (n : Z)
| JsString (s : string)
| JsArray (elements : list JsValue)
| JsObject (properties : list (string * JsValue)).

(** [if (v)], [!v]: ToBoolean. *)
Definition truthy (v : JsValue) : bool :=
  match v with
  | JsUndefined | JsNull => false
  | JsBool b => b
  | JsNumber n => negb (n =? 0)
  | JsString s => negb (String.eqb s EmptyString)
  | JsArray _ | JsObject _ => true
  end.

Fixpoint lookup (key : string) (properties : list (string * JsValue)) : JsValue :=
  match properties with
  | [] => JsUndefined
  | (k, v) :: rest => if String.eqb k key then v else lookup key rest
  end.

(** Errors the connector can see.  [ApiAuthError] is the module's own class;
    the others come from the runtime and from node-fetch. *)
Inductive JsError : Type :=
| ApiAuthError (message : string)
| TypeError (message : string)
| ReferenceError (message : string)
| FetchError (reason : string)
| Thrown (value : JsValue).

(** [v.key] for the keys the connector reads ([access_token],
    [refresh_token], [error]): reading a property of [null] or [undefined]
    throws, a primitive or an array has no such property. *)
Definition get_prop (v : JsValue) (key : string) : JsError + JsValue :=
  match v with
  | JsUndefined => inl (TypeError ("Cannot read properties of undefined (reading '" ++ key ++ "')"))
  | JsNull => inl (TypeError ("Cannot read properties of null (reading '" ++ key ++ "')"))
  | JsObject properties => inr (lookup key properties)
  | _ => inr JsUndefined
  end.

(** ** Requests, responses and the log of effects *)

Definition Headers := list (string * string).

Fixpoint header (name : string) (h : Headers) : option string :=
  match h with
  | [] => None
  | (k, v) :: rest => if String.eqb k name then Some v else header name rest
  end.

Record FetchOpts : Type := mkFetchOpts {
  fo_method : string;
  fo_headers : Headers;
  fo_body : option JsValue
}.

(** A response as far as the connector looks at it: the status and what
    [response.json()] resolves to ([None] when the body is not JSON and the
    call rejects). *)
Record Response : Type := mkResponse {
  status : Z;
  json : option JsValue
}.

Definition ok (r : Response) : bool := (200 <=? status r) && (status r <? 300).

Inductive FetchOutcome : Type :=
| Responds (r : Response)
| Rejects (reason : string).

Inductive InitOutcome : Type :=
| Resolves (creds : JsValue)
| Fails (value : JsValue).

(** What a call leaves behind outside the connector's two token fields.
    [Refreshing] marks an entry into [refreshAccessToken]; the others are the
    calls the source makes to node-fetch, to [this.emit], to the credential
    initializer and to [console.error].  Listeners of [token] are the
    subscribers of the log: they return normally and do not call back. *)
Inductive Event : Type :=
| Fetch (full_url : string) (opts : FetchOpts)
| Emit (name : string) (payload : JsValue)
| Initializer
| ConsoleError (e : JsError)
| Refreshing (refresh_token : JsValue).

Definition Log := list Event.

(** ** Connector state *)

Record TDAConnector : Type := mkTDAConnector {
  client_id : string;
  redirect_uri : string;
  access_token : JsValue;
  refresh_token : JsValue;
  credentialInitializer : option (Log -> InitOutcome);
  base_url : string
}.

Definition constructor (client_id redirect_uri : string)
    (credentialInitializer : option (Log -> InitOutcome)) : TDAConnector :=
  {| client_id := client_id;
     redirect_uri := redirect_uri;
     access_token := JsNull;
     refresh_token := JsNull;
     credentialInitializer := credentialInitializer;
     base_url := "https://api.tdameritrade.com/v1" |}.

Definition set_access_token (v : JsValue) (c : TDAConnector) : TDAConnector :=
  {| client_id := client_id c; redirect_uri := redirect_uri c;
     access_token := v; refresh_token := refresh_token c;
     credentialInitializer := credentialInitializer c; base_url := base_url c |}.

Definition set_refresh_token (v : JsValue) (c : TDAConnector) : TDAConnector :=
  {| client_id := client_id c; redirect_uri := redirect_uri c;
     access_token := access_token c; refresh_token := v;
     credentialInitializer := credentialInitializer c; base_url := base_url c |}.

(** [creds.access_token] where [creds] is known not to be nullish. *)
Definition field (creds : JsValue) (key : string) : JsValue :=
  match get_prop creds key with
  | inr v => v
  | inl _ => JsUndefined
  end.

(** [setCredentials(creds)] *)
Definition setCredentials (creds : JsValue) (c : TDAConnector) : TDAConnector :=
  if truthy creds then
    let c1 := if truthy (field creds "access_token")
              then set_access_token (field creds "access_token") c else c in
    if truthy (field creds "refresh_token")
    then set_refresh_token (field creds "refresh_token") c1 else c1
  else c.

(** ** Asynchronous computations *)

Record World : Type := mkWorld {
  this : TDAConnector;
  log : Log
}.

(** How an awaited call ends: it resolves, it rejects, or it never settles. *)
Inductive Outcome (A : Type) : Type :=
| Returns (a : A) (w : World)
| Throws (e : JsError) (w : World)
| Pending.

Arguments Returns {A} a w.
Arguments Throws {A} e w.
Arguments Pending {A}.

Definition Async (A : Type) : Type := World -> Outcome A.

Definition ret {A} (a : A) : Async A := fun w => Returns a w.

Definition throw {A} (e : JsError) : Async A := fun w => Throws e w.

Definition bind {A B} (m : Async A) (k : A -> Async B) : Async B :=
  fun w =>
    match m w with
    | Returns a w' => k a w'
    | Throws e w' => Throws e w'
    | Pending => Pending
    end.

Definition try_catch {A} (m : Async A) (handler : JsError -> Async A) : Async A :=
  fun w =>
    match m w with
    | Returns a w' => Returns a w'
    | Throws e w' => handler e w'
    | Pending => Pending
    end.

Notation "x <- m ;; k" := (bind m (fun x => k))
  (at level 61, m at next level, right associativity).
Notation "m ;; k" := (bind m (fun _ => k))
  (at level 61, right associativity).

(** The world once [e] has happened. *)
Definition after (e : Event) (w : World) : World :=
  {| this := this w; log := (log w ++ [e])%list |}.

Definition record (e : Event) : Async unit :=
  fun w => Returns tt (after e w).

Definition read {A} (f : TDAConnector -> A) : Async A :=
  fun w => Returns (f (this w)) w.

Definition update (f : TDAConnector -> TDAConnector) : Async unit :=
  fun w => Returns tt {| this := f (this w); log := log w |}.

Definition history : Async Log := fun w => Returns (log w) w.

Definition lift {A} (r : JsError + A) : Async A :=
  match r with
  | inl e => throw e
  | inr a => ret a
  end.

Definition when (b : bool) (m : Async unit) : Async unit :=
  if b then m else ret tt.

(** ** The host: runtime functions and the network *)

(** The library functions the connector calls.  [fetch] answers a request
    given everything that happened before it, which covers every
    deterministic server. *)
Class Host : Type := {
  encodeURIComponent : string -> string;
  qs_stringify : JsValue -> string;
  JSON_stringify : JsValue -> string;
  interpolate : JsValue -> string;
  fetch : Log -> string -> FetchOpts -> FetchOutcome
}.

Record Options : Type := mkOptions {
  retries : option Z;
  headers : option Headers
}.

Definition token_url : string := "https://api.tdameritrade.com/v1/oauth2/token".

Definition form_headers : Headers :=
  [("Content-Type", "application/x-www-form-urlencoded")].

(** The options both token exchanges pass to [doFetch]: a new object on
    every call, with the form content type and no retry counter. *)
Definition token_options : option Options :=
  Some {| retries := None; headers := Some form_headers |}.

Section Connector.
Context {host : Host}.

(** [emit("token", result)] and [console.error(ex)] *)
Definition emit (name : string) (payload : JsValue) : Async unit :=
  record (Emit name payload).

Definition console_error (e : JsError) : Async unit :=
  record (ConsoleError e).

(** [response.json()] *)
Definition response_json (r : Response) : Async JsValue :=
  match json r with
  | Some v => ret v
  | None => throw (FetchError "invalid-json")
  end.

Definition b2z (b : bool) : Z := if b then 1 else 0.

(** [handleNotOk(response)].  The two range tests use the bitwise [&] of the
    source; [debug(result.error)] reads a property of the parsed body before
    the authentication error is built; the last branch throws the undeclared
    [err]. *)
Definition handleNotOk (response : Response) : Async JsValue :=
  result <- response_json response ;;
  if negb (Z.land (b2z (300 <=? status response)) (b2z (status response <? 400)) =? 0) then
    ret result
  else if negb (Z.land (b2z (400 <=? status response)) (b2z (status response <? 500)) =? 0) then
    if (status response =? 401) || (status response =? 403) then
      _ <- lift (get_prop result "error") ;;
      throw (ApiAuthError (JSON_stringify result))
    else ret result
  else if 500 <=? status response then
    ret result
  else throw (ReferenceError "err is not defined").

(** Lines 217-221 of [doFetch]: the lazy credential bootstrap. *)
Definition bootstrap : Async unit :=
  token <- read access_token ;;
  initializer <- read credentialInitializer ;;
  match initializer with
  | Some call =>
    if negb (truthy token) then
      past <- history ;;
      record Initializer ;;
      match call past with
      | Fails v => throw (Thrown v)
      | Resolves creds =>
        a <- lift (get_prop creds "access_token") ;;
        when (truthy a) (update (set_access_token a)) ;;
        r <- lift (get_prop creds "refresh_token") ;;
        when (truthy r) (update (set_refresh_token r))
      end
    else ret tt
  | None => ret tt
  end.

(** Lines 222-227: defaults of the options argument. *)
Definition with_defaults (options : option Options) : Options :=
  let options := match options with
                 | Some o => o
                 | None => {| retries := None; headers := None |}
                 end in
  match retries options with
  | Some n => if n =? 0 then {| retries := Some 0; headers := headers options |} else options
  | None => {| retries := Some 0; headers := headers options |}
  end.

Definition retry_count (options : Options) : Z :=
  match retries options with
  | Some n => n
  | None => 0
  end.

(** Lines 229-243: the headers sent. *)
Definition request_headers (token : JsValue) (options : Options) : Headers :=
  match headers options with
  | Some h => h
  | None =>
    ([("Content-Type", "application/json");
      ("User-Agent", "Apigrate NodeJS Connector/1.0.0")]
     ++ (if truthy token then [("Authorization", ("Bearer " ++ interpolate token)%string)] else []))%list
  end.

(** Lines 245-250. *)
Definition full_url (url : string) (query : JsValue) : string :=
  url ++ (if truthy query then "?" ++ qs_stringify query else EmptyString).

(** Lines 252-262. *)
Definition request_body (h : Headers) (payload : JsValue) : option JsValue :=
  if truthy payload then
    match header "Content-Type" h with
    | Some "application/x-www-form-urlencoded" => Some payload
    | _ => Some (JsString (JSON_stringify payload))
    end
  else None.

Definition fetchOpts (method : string) (payload : JsValue) (options : Options)
    (token : JsValue) : FetchOpts :=
  let h := request_headers token options in
  {| fo_method := method; fo_headers := h; fo_body := request_body h payload |}.

(** Lines 265-277, the body of the [try]: one call of node-fetch and the
    classification of what came back. *)
Definition dispatch (url : string) (opts : FetchOpts) : Async JsValue :=
  past <- history ;;
  record (Fetch url opts) ;;
  match fetch past url opts with
  | Rejects reason => throw (FetchError reason)
  | Responds response =>
    if ok response then response_json response
    else handleNotOk response
  end.

Definition DoFetch : Type :=
  string -> string -> JsValue -> JsValue -> option Options -> Async JsValue.

(** The form bodies of the two grants. *)
Definition refresh_grant (token : JsValue) (c : TDAConnector) : string :=
  "grant_type=refresh_token&refresh_token=" ++ encodeURIComponent (interpolate token)
  ++ "&client_id=" ++ encodeURIComponent (client_id c)
  ++ "&redirect_uri=" ++ encodeURIComponent (redirect_uri c).

Definition code_grant (code : string) (c : TDAConnector) : string :=
  "grant_type=authorization_code&refresh_token=&access_type=offline"
  ++ "&code=" ++ encodeURIComponent code
  ++ "&client_id=" ++ encodeURIComponent (client_id c)
  ++ "&redirect_uri=" ++ encodeURIComponent (redirect_uri c).

(** [refreshAccessToken(refresh_token)] over the executor it calls. *)
Definition refresh_with (doFetch : DoFetch) (token : JsValue) : Async JsValue :=
  record (Refreshing token) ;;
  payload <- read (refresh_grant token) ;;
  try_catch
    (result <- doFetch "POST" token_url JsNull (JsString payload) token_options ;;
     emit "token" result ;;
     update (setCredentials result) ;;
     ret result)
    (fun ex => console_error ex ;; ret JsUndefined).

(** [doFetch(method, url, query, payload, options)].  [fuel] bounds the depth
    of nested calls; [Pending] is the answer when it does not suffice. *)
Fixpoint doFetch (fuel : nat) (method url : string) (query payload : JsValue)
    (options : option Options) : Async JsValue :=
  match fuel with
  | O => fun _ => Pending
  | S fuel' =>
    bootstrap ;;
    let options := with_defaults options in
    token <- read access_token ;;
    let opts := fetchOpts method payload options token in
    try_catch
      (dispatch (full_url url query) opts)
      (fun err =>
         match err with
         | ApiAuthError _ =>
           if retry_count options <? 1 then
             held <- read refresh_token ;;
             refresh_with (doFetch fuel') held ;;
             doFetch fuel' method url query payload
               (Some {| retries := Some (retry_count options + 1);
                        headers := headers options |})
           else throw err
         | _ => console_error err ;; throw err
         end)
  end.

Definition refreshAccessToken (fuel : nat) (token : JsValue) : Async JsValue :=
  refresh_with (doFetch fuel) token.

(** [getAccessToken(code)] *)
Definition getAccessToken (fuel : nat) (code : string) : Async JsValue :=
  payload <- read (code_grant code) ;;
  try_catch
    (result <- doFetch fuel "POST" token_url JsNull (JsString payload) token_options ;;
     emit "token" result ;;
     update (setCredentials result) ;;
     ret result)
    (fun ex => console_error ex ;; ret JsUndefined).

(** The domain methods: one [GET] each, no payload, no options. *)
Definition getAccounts (fuel : nat) (parameters : JsValue) : Async JsValue :=
  base <- read base_url ;;
  doFetch fuel "GET" (base ++ "/accounts") parameters JsUndefined None.

Definition getAccount (fuel : nat) (accountId : string) (parameters : JsValue)
    : Async JsValue :=
  base <- read base_url ;;
  doFetch fuel "GET" (base ++ "/accounts/" ++ accountId) parameters JsUndefined None.

Definition searchInstruments (fuel : nat) (symbol projection : string) : Async JsValue :=
  base <- read base_url ;;
  doFetch fuel "GET"
    (base ++ "/instruments?symbol=" ++ symbol ++ "&projection=" ++ projection)
    JsUndefined JsUndefined None.

Definition getQuote (fuel : nat) (symbol : string) : Async JsValue :=
  base <- read base_url ;;
  doFetch fuel "GET" (base ++ "/marketdata/" ++ symbol ++ "/quotes")
    JsUndefined JsUndefined None.

Definition getPriceHistory (fuel : nat) (symbol : string) (parameters : JsValue)
    : Async JsValue :=
  base <- read base_url ;;
  doFetch fuel "GET" (base ++ "/marketdata/" ++ symbol ++ "/pricehistory")
    parameters JsUndefined None.

Definition getTransactions (fuel : nat) (accountId : string) (parameters : JsValue)
    : Async JsValue :=
  base <- read base_url ;;
  doFetch fuel "GET" (base ++ "/accounts/" ++ accountId ++ "/transactions")
    parameters JsUndefined None.

Definition getTransaction (fuel : nat) (accountId transactionId : string)
    : Async JsValue :=
  base <- read base_url ;;
  doFetch fuel "GET"
    (base ++ "/accounts/" ++ accountId ++ "/transactions/" ++ transactionId)
    JsUndefined JsUndefined None.

(** A call of one of the domain methods. *)
Inductive DomainCall : Type :=
| GetAccounts (parameters : JsValue)
| GetAccount (accountId : string) (parameters : JsValue)
| SearchInstruments (symbol projection : string)
| GetQuote (symbol : string)
| GetPriceHistory (symbol : string) (parameters : JsValue)
| GetTransactions (accountId : string) (parameters : JsValue)
| GetTransaction (accountId transactionId : string).

Definition invoke (fuel : nat) (c : DomainCall) : Async JsValue :=
  match c with
  | GetAccounts parameters => getAccounts fuel parameters
  | GetAccount accountId parameters => getAccount fuel accountId parameters
  | SearchInstruments symbol projection => searchInstruments fuel symbol projection
  | GetQuote symbol => getQuote fuel symbol
  | GetPriceHistory symbol parameters => getPriceHistory fuel symbol parameters
  | GetTransactions accountId parameters => getTransactions fuel accountId parameters
  | GetTransaction accountId transactionId => getTransaction fuel accountId transactionId
  end.

(** A call of any public method of the connector. *)
Inductive ApiCall : Type :=
| Domain (c : DomainCall)
| ExchangeCode (code : string)
| RefreshToken (token : JsValue)
| SetCredentials (creds : JsValue).

Definition perform (fuel : nat) (c : ApiCall) : Async JsValue :=
  match c with
  | Domain d => invoke fuel d
  | ExchangeCode code => getAccessToken fuel code
  | RefreshToken token => refreshAccessToken fuel token
  | SetCredentials creds => update (setCredentials creds) ;; ret JsUndefined
  end.

(** A client that makes the calls one after the other and carries on after a
    rejected one; [None] when a call never settles. *)
Fixpoint session (fuel : nat) (calls : list ApiCall) (w : World) : option World :=
  match calls with
  | [] => Some w
  | c :: rest =>
    match perform fuel c w with
    | Returns _ w' => session fuel rest w'
    | Throws _ w' => session fuel rest w'
    | Pending => None
    end
  end.

End Connector.

(** ** Reading the log *)

Definition is_initializer (e : Event) : bool :=
  match e with Initializer => true | _ => false end.

Definition is_refreshing (e : Event) : bool :=
  match e with Refreshing _ => true | _ => false end.

Definition is_fetch (e : Event) : bool :=
  match e with Fetch _ _ => true | _ => false end.

Definition is_token (e : Event) : bool :=
  match e with Emit name _ => String.eqb name "token" | _ => false end.

Definition count (p : Event -> bool) (l : Log) : nat := length (filter p l).

Definition initializer_calls : Log -> nat := count is_initializer.
Definition refresh_calls : Log -> nat := count is_refreshing.
Definition fetch_calls : Log -> nat := count is_fetch.
Definition token_events : Log -> nat := count is_token.

(** The world a fresh connector starts in. *)
Definition fresh (c : TDAConnector) : World := {| this := c; log := [] |}.

Definition world_of {A} (o : Outcome A) (otherwise : World) : World :=
  match o with
  | Returns _ w => w
  | Throws _ w => w
  | Pending => otherwise
  end.

(** ** A scripted host

    Used to run the connector on concrete exchanges: the n-th call of
    node-fetch gets the n-th answer of the script, later calls get
    [otherwise].  The string functions are plain stand-ins (no escaping). *)

Definition quote : string := String "034"%char EmptyString.

Definition show_number (n : Z) : string := NilZero.string_of_int (Z.to_int n).

Fixpoint show (v : JsValue) : string :=
  match v with
  | JsUndefined => "undefined"
  | JsNull => "null"
  | JsBool b => if b then "true" else "false"
  | JsNumber n => show_number n
  | JsString s => quote ++ s ++ quote
  | JsArray elements => "[" ++ String.concat "," (map show elements) ++ "]"
  | JsObject properties =>
    "{" ++ String.concat ","
             (map (fun kv => quote ++ fst kv ++ quote ++ ":" ++ show (snd kv)) properties)
        ++ "}"
  end.

Definition plain (v : JsValue) : string :=
  match v with
  | JsString s => s
  | _ => show v
  end.

Definition scripted (answers : list FetchOutcome) (otherwise : FetchOutcome) : Host :=
  {| encodeURIComponent := fun s => s;
     qs_stringify := show;
     JSON_stringify := show;
     interpolate := plain;
     fetch := fun past _ _ => nth (fetch_calls past) answers otherwise |}.

Definition respond (code : Z) (body : JsValue) : FetchOutcome :=
  Responds {| status := code; json := Some body |}.

Definition credentials (access refresh : string) : JsValue :=
  JsObject [("access_token", JsString access); ("refresh_token", JsString refresh)].

Definition unauthorized : JsValue := JsObject [("error", JsString "Unauthorized")].

Definition quote_body : JsValue := JsObject [("symbol", JsString "TSLA")].

(** A connector without initializer on which [setCredentials] was called. *)
Definition with_tokens (access refresh : string) : TDAConnector :=
  setCredentials (credentials access refresh) (constructor "ABC123" "https://x/cb" None).

(** A connector built with an initializer that always resolves to [creds]. *)
Definition initialized_by (creds : JsValue) : TDAConnector :=
  constructor "ABC123" "https://x/cb" (Some (fun _ => Resolves creds)).

(** Every request is refused at the transport level. *)
Definition down : Host := scripted [] (Rejects "ECONNREFUSED").

Definition invalid_grant : JsValue := JsObject [("error", JsString "invalid_grant")].

(** The token endpoint issues credentials / refuses the grant with a 400. *)
Definition issuing : Host :=
  scripted [respond 200 (credentials "A1" "R1")] (Rejects "unscripted").

Definition refusing : Host :=
  scripted [respond 400 invalid_grant] (Rejects "unscripted").

(** The access token has expired: the call is rejected, the refresh is
    granted, and then the call is rejected again / answered. *)
Definition expired : Host :=
  scripted [respond 401 unauthorized; respond 200 (credentials "A2" "R2");
            respond 401 unauthorized] (Rejects "unscripted").

Definition stale : Host :=
  scripted [respond 401 unauthorized; respond 200 (credentials "A2" "R2");
            respond 200 quote_body] (Rejects "unscripted").

(** The token endpoint rejects the first refresh POST with a 401 as well. *)
Definition rejecting_refresh : Host :=
  scripted [respond 401 unauthorized; respond 401 unauthorized;
            respond 200 (credentials "A2" "R2"); respond 200 (credentials "A3" "R3");
            respond 200 quote_body] (Rejects "unscripted").

(** Every request, the refresh POST included, is answered 401. *)
Definition always_rejecting : Host := scripted [] (respond 401 unauthorized).

(** Every request is answered 200. *)
Definition serving : Host := scripted [] (respond 200 quote_body).

(** Stored credentials that lack the access token. *)
Definition tokenless : JsValue := JsObject [("refresh_token", JsString "R")].

Definition quotes_url : string :=
  "https://api.tdameritrade.com/v1/marketdata/TSLA/quotes".

(** ** Vocabulary of the statements *)

(** [creds] is an object with an own property [key]. *)
Definition has_field (key : string) (creds : JsValue) : bool :=
  match creds with
  | JsObject properties => existsb (fun kv => String.eqb (fst kv) key) properties
  | _ => false
  end.

(** The world once an exchange that resolved with [b] has notified the
    subscribers of [token] and stored the credentials. *)
Definition notified (b : JsValue) (w : World) : World :=
  {| this := setCredentials b (this w);
     log := (log w ++ [Emit "token" b])%list |}.

(** The request both token exchanges send. *)
Definition token_request (payload : string) : FetchOpts :=
  {| fo_method := "POST"; fo_headers := form_headers;
     fo_body := Some (JsString payload) |}.

Definition nullish (v : JsValue) : bool :=
  match v with
  | JsUndefined | JsNull => true
  | _ => false
  end.

(** A 401 or 403 answer whose body parses to [b], a value other than
    [null]. *)
Definition auth_rejection (r : Response) (b : JsValue) : Prop :=
  (status r = 401 \/ status r = 403) /\ json r = Some b /\ nullish b = false.

(** No bootstrap is due: a token is held, or there is no initializer. *)
Definition ready (c : TDAConnector) : Prop :=
  truthy (access_token c) = true \/ credentialInitializer c = None.

(** The call settled (resolved or rejected) in world [w']. *)
Definition ends_in {A} (o : Outcome A) (w' : World) : Prop :=
  match o with
  | Returns _ w => w = w'
  | Throws _ w => w = w'
  | Pending => False
  end.

Definition post {A} (o : Outcome A) (Q : World -> Prop) : Prop :=
  match o with
  | Returns _ w => Q w
  | Throws _ w => Q w
  | Pending => True
  end.

(** From [w] to [w'] the connector stayed ready and the initializer was not
    called. *)
Definition calm (w w' : World) : Prop :=
  ready (this w') /\ initializer_calls (log w') = initializer_calls (log w).

(** An executor that keeps a ready connector calm. *)
Definition calm_executor (f : DoFetch) : Prop :=
  forall method url query payload options w,
    ready (this w) -> post (f method url query payload options w) (calm w).

(** ** The rest of the module *)

(** [getAuthorizationUrl(client_id, redirect_uri)] *)
Definition getAuthorizationUrl {host : Host} (client_id redirect_uri : string) : string :=
  "https://auth.tdameritrade.com/auth?response_type=code&redirect_uri="
  ++ encodeURIComponent redirect_uri
  ++ "&client_id=" ++ encodeURIComponent client_id ++ "%40AMER.OAUTHAP".

(** The log of [w'] is the log of [w] followed by events that all satisfy
    [P]. *)
Definition grows (P : Event -> Prop) (w w' : World) : Prop :=
  exists added, log w' = (log w ++ added)%list /\ Forall P added.

(** What a call [doFetch(method, url, query, payload, options)] may leave in
    the log: requests are the one asked for (with some token) or a refresh
    POST, notifications are [token]. *)
Definition issued {host : Host} (method url : string) (query payload : JsValue)
    (options : option Options) (e : Event) : Prop :=
  match e with
  | Fetch target opts =>
    (target = full_url url query /\
     exists token, opts = fetchOpts method payload (with_defaults options) token)
    \/ (target = token_url /\
        exists token c, opts = token_request (refresh_grant token c))
  | Emit name _ => name = "token"
  | _ => True
  end.

(** A request is a form POST to the token endpoint. *)
Definition token_post (e : Event) : Prop :=
  match e with
  | Fetch target opts =>
    target = token_url /\ fo_method opts = "POST" /\ fo_headers opts = form_headers
  | Emit name _ => name = "token"
  | _ => True
  end.

(** A request is a [GET] without body, or a form POST to the token
    endpoint. *)
Definition read_only (e : Event) : Prop :=
  match e with
  | Fetch target opts =>
    (fo_method opts = "GET" /\ fo_body opts = None)
    \/ (target = token_url /\ fo_method opts = "POST" /\ fo_headers opts = form_headers)
  | _ => True
  end.


(** The configuration is the same in [w'] as in [w], and a token held in [w]
    is still held in [w']. *)
Definition keeps (w w' : World) : Prop :=
  client_id (this w') = client_id (this w) /\
  redirect_uri (this w') = redirect_uri (this w) /\
  base_url (this w') = base_url (this w) /\
  credentialInitializer (this w') = credentialInitializer (this w) /\
  (truthy (access_token (this w)) = true -> truthy (access_token (this w')) = true) /\
  (truthy (refresh_token (this w)) = true -> truthy (refresh_token (this w')) = true).

(** The API rejects every request with a 401; the token endpoint grants
    every refresh. *)
Definition guarded : Host :=
  {| encodeURIComponent := fun s => s;
     qs_stringify := show;
     JSON_stringify := show;
     interpolate := plain;
     fetch := fun _ url _ =>
       if String.eqb url token_url then respond 200 (credentials "A2" "R2")
       else respond 401 unauthorized |}.

(** An initializer that fails. *)
Definition failing_initializer : TDAConnector :=
  constructor "ABC123" "https://x/cb" (Some (fun _ => Fails (JsString "no store"))).

(** Every answer is a 401 whose body is not JSON. *)
Definition garbled : Host :=
  scripted [] (Responds {| status := 401; json := None |}).

(** The access token has expired and the retry is answered with a 401
    whose body is not JSON. *)
Definition expired_garbled : Host :=
  scripted [respond 401 unauthorized; respond 200 (credentials "A2" "R2");
            Responds {| status := 401; json := None |}] (Rejects "unscripted").

(** ** Basic facts *)

Section Facts.
Context {host : Host}.

Lemma handleNotOk_cases (r : Response) (w : World) :
  handleNotOk r w =
  match json r with
  | None => Throws (FetchError "invalid-json") w
  | Some b =>
    if (300 <=? status r) && (status r <? 400) then Returns b w
    else if (400 <=? status r) && (status r <? 500) then
      if (status r =? 401) || (status r =? 403) then
        match get_prop b "error" with
        | inl e => Throws e w
        | inr _ => Throws (ApiAuthError (JSON_stringify b)) w
        end
      else Returns b w
    else if 500 <=? status r then Returns b w
    else Throws (ReferenceError "err is not defined") w
  end.
Proof.
  unfold handleNotOk, response_json, bind.
  destruct (json r) as [b|]; [|reflexivity].
  cbn [ret throw].
  destruct (300 <=? status r), (status r <? 400), (400 <=? status r),
    (status r <? 500), (500 <=? status r); cbn; try reflexivity;
  destruct ((status r =? 401) || (status r =? 403)); try reflexivity;
  destruct (get_prop b "error"); reflexivity.
Qed.

Lemma doFetch_step (fuel : nat) (method url : string) (query payload : JsValue)
    (options : option Options) (w : World) :
  doFetch (S fuel) method url query payload options w =
  match bootstrap w with
  | Returns _ w0 =>
    let o := with_defaults options in
    match dispatch (full_url url query)
            (fetchOpts method payload o (access_token (this w0))) w0 with
    | Returns v w1 => Returns v w1
    | Throws (ApiAuthError msg) w1 =>
      if retry_count o <? 1 then
        match refreshAccessToken fuel (refresh_token (this w1)) w1 with
        | Returns _ w2 =>
          doFetch fuel method url query payload
            (Some {| retries := Some (retry_count o + 1); headers := headers o |}) w2
        | Throws e w2 => Throws e w2
        | Pending => Pending
        end
      else Throws (ApiAuthError msg) w1
    | Throws e w1 => Throws e (after (ConsoleError e) w1)
    | Pending => Pending
    end
  | Throws e w0 => Throws e w0
  | Pending => Pending
  end.
Proof.
  cbn [doFetch]. unfold bind at 1.
  destruct (bootstrap w) as [[] w0|e w0|]; try reflexivity.
  unfold bind at 1. cbn [read]. unfold try_catch at 1.
  destruct (dispatch _ _ w0) as [v w1|e w1|]; try reflexivity.
  destruct e; try reflexivity.
  destruct (retry_count (with_defaults options) <? 1); reflexivity.
Qed.

Lemma refresh_with_step (f : DoFetch) (token : JsValue) (w : World) :
  refresh_with f token w =
  match f "POST" token_url JsNull (JsString (refresh_grant token (this w)))
          token_options (after (Refreshing token) w) with
  | Returns b w' => Returns b (notified b w')
  | Throws e w' => Returns JsUndefined (after (ConsoleError e) w')
  | Pending => Pending
  end.
Proof.
  unfold refresh_with, bind at 1, record. unfold bind at 1, read.
  cbn [this after]. unfold try_catch, bind at 1.
  destruct (f _ _ _ _ _ _); reflexivity.
Qed.

Lemma refreshAccessToken_step (fuel : nat) (token : JsValue) (w : World) :
  refreshAccessToken fuel token w =
  match doFetch fuel "POST" token_url JsNull (JsString (refresh_grant token (this w)))
          token_options (after (Refreshing token) w) with
  | Returns b w' => Returns b (notified b w')
  | Throws e w' => Returns JsUndefined (after (ConsoleError e) w')
  | Pending => Pending
  end.
Proof. apply refresh_with_step. Qed.

Lemma getAccessToken_step (fuel : nat) (code : string) (w : World) :
  getAccessToken fuel code w =
  match doFetch fuel "POST" token_url JsNull (JsString (code_grant code (this w)))
          token_options w with
  | Returns b w' => Returns b (notified b w')
  | Throws e w' => Returns JsUndefined (after (ConsoleError e) w')
  | Pending => Pending
  end.
Proof.
  unfold getAccessToken, bind at 1, read. unfold try_catch, bind at 1.
  destruct (doFetch _ _ _ _ _ _ _); reflexivity.
Qed.

Lemma dispatch_cases (url : string) (opts : FetchOpts) (w : World) :
  dispatch url opts w =
  match fetch (log w) url opts with
  | Rejects reason => Throws (FetchError reason) (after (Fetch url opts) w)
  | Responds r =>
    if ok r then response_json r (after (Fetch url opts) w)
    else handleNotOk r (after (Fetch url opts) w)
  end.
Proof.
  unfold dispatch, bind, history, record. cbn.
  destruct (fetch (log w) url opts) as [r|reason]; [|reflexivity].
  destruct (ok r); reflexivity.
Qed.

Lemma count_snoc (p : Event -> bool) (l : Log) (e : Event) :
  count p (l ++ [e])%list = (count p l + (if p e then 1 else 0))%nat.
Proof.
  unfold count. rewrite filter_app, length_app. cbn [filter].
  destruct (p e); reflexivity.
Qed.

Lemma count_after (p : Event -> bool) (e : Event) (w : World) :
  count p (log (after e w)) = (count p (log w) + (if p e then 1 else 0))%nat.
Proof. apply count_snoc. Qed.

Lemma dispatch_ends (url : string) (opts : FetchOpts) (w : World) :
  ends_in (dispatch url opts w) (after (Fetch url opts) w).
Proof.
  rewrite dispatch_cases.
  destruct (fetch (log w) url opts) as [r|reason]; [|reflexivity].
  destruct (ok r).
  - unfold response_json. destruct (json r); reflexivity.
  - rewrite handleNotOk_cases.
    destruct (json r); [|reflexivity].
    destruct ((300 <=? status r) && (status r <? 400)); [reflexivity|].
    destruct ((400 <=? status r) && (status r <? 500)).
    + destruct ((status r =? 401) || (status r =? 403)); [|reflexivity].
      destruct (get_prop j "error"); reflexivity.
    + destruct (500 <=? status r); reflexivity.
Qed.

Lemma get_prop_defined (b : JsValue) (key : string) :
  nullish b = false -> get_prop b key = inr (field b key).
Proof. destruct b; cbn; try discriminate; reflexivity. Qed.

Lemma dispatch_auth (url : string) (opts : FetchOpts) (w : World)
    (r : Response) (b : JsValue) :
  fetch (log w) url opts = Responds r ->
  auth_rejection r b ->
  dispatch url opts w =
  Throws (ApiAuthError (JSON_stringify b)) (after (Fetch url opts) w).
Proof.
  intros Hf (Hs & Hj & Hn).
  rewrite dispatch_cases, Hf.
  assert (Hok : ok r = false) by (unfold ok; destruct Hs as [-> | ->]; reflexivity).
  rewrite Hok, handleNotOk_cases, Hj.
  rewrite (get_prop_defined _ _ Hn).
  destruct Hs as [-> | ->]; reflexivity.
Qed.

Lemma dispatch_ok (url : string) (opts : FetchOpts) (w : World)
    (r : Response) (b : JsValue) :
  fetch (log w) url opts = Responds r ->
  ok r = true ->
  json r = Some b ->
  dispatch url opts w = Returns b (after (Fetch url opts) w).
Proof.
  intros Hf Hok Hj. rewrite dispatch_cases, Hf, Hok.
  unfold response_json. rewrite Hj. reflexivity.
Qed.

Lemma dispatch_passed (url : string) (opts : FetchOpts) (w : World)
    (r : Response) (b : JsValue) :
  fetch (log w) url opts = Responds r ->
  300 <= status r -> status r <> 401 -> status r <> 403 ->
  json r = Some b ->
  dispatch url opts w = Returns b (after (Fetch url opts) w).
Proof.
  intros Hf H3 H401 H403 Hj. rewrite dispatch_cases, Hf.
  assert (Hok : ok r = false).
  { unfold ok. apply andb_false_iff. right. apply Z.ltb_ge. lia. }
  rewrite Hok, handleNotOk_cases, Hj.
  assert (E1 : (status r =? 401) = false) by (apply Z.eqb_neq; assumption).
  assert (E2 : (status r =? 403) = false) by (apply Z.eqb_neq; assumption).
  rewrite E1, E2. cbn [orb].
  destruct (300 <=? status r) eqn:A; [|apply Z.leb_gt in A; lia].
  destruct (status r <? 400) eqn:B; [reflexivity|]. cbn [andb].
  destruct (400 <=? status r) eqn:C; [|apply Z.leb_gt in C; apply Z.ltb_ge in B; lia].
  destruct (status r <? 500) eqn:D; [reflexivity|]. cbn [andb].
  destruct (500 <=? status r) eqn:F; [reflexivity|].
  apply Z.leb_gt in F. apply Z.ltb_ge in D. lia.
Qed.

Lemma dispatch_not_auth (url : string) (opts : FetchOpts) (w : World) :
  (forall r, fetch (log w) url opts = Responds r ->
             status r <> 401 /\ status r <> 403) ->
  forall msg w', dispatch url opts w <> Throws (ApiAuthError msg) w'.
Proof.
  intros H msg w'. rewrite dispatch_cases.
  destruct (fetch (log w) url opts) as [r|reason]; [|discriminate].
  destruct (H r eq_refl) as [H401 H403].
  destruct (ok r).
  - unfold response_json. destruct (json r); discriminate.
  - rewrite handleNotOk_cases.
    destruct (json r); [|discriminate].
    assert (E1 : (status r =? 401) = false) by (apply Z.eqb_neq; assumption).
    assert (E2 : (status r =? 403) = false) by (apply Z.eqb_neq; assumption).
    rewrite E1, E2. cbn [orb].
    destruct ((300 <=? status r) && (status r <? 400)); [discriminate|].
    destruct ((400 <=? status r) && (status r <? 500)); [discriminate|].
    destruct (500 <=? status r); discriminate.
Qed.

(** *** Readiness is kept *)

Lemma ready_setCredentials (v : JsValue) (c : TDAConnector) :
  ready c -> ready (setCredentials v c).
Proof.
  unfold ready, setCredentials.
  destruct (truthy v); [|tauto].
  destruct (truthy (field v "access_token")) eqn:A,
           (truthy (field v "refresh_token")) eqn:R; cbn; tauto.
Qed.

Lemma bootstrap_ready (w : World) :
  ready (this w) -> bootstrap w = Returns tt w.
Proof.
  unfold ready, bootstrap, bind, read. cbn.
  intros [H | H]; rewrite H.
  - destruct (credentialInitializer (this w)); reflexivity.
  - reflexivity.
Qed.

Lemma calm_refl (w : World) : ready (this w) -> calm w w.
Proof. intros H; split; [assumption | reflexivity]. Qed.

Lemma calm_trans (w1 w2 w3 : World) : calm w1 w2 -> calm w2 w3 -> calm w1 w3.
Proof. intros [_ A] [B C]. split; [assumption | congruence]. Qed.

Lemma calm_after (e : Event) (w : World) :
  ready (this w) -> is_initializer e = false -> calm w (after e w).
Proof.
  intros H E. split; [assumption|].
  unfold initializer_calls. rewrite count_after, E. lia.
Qed.

Lemma calm_credentials (b : JsValue) (w : World) :
  ready (this w) -> calm w (notified b w).
Proof.
  intros H. split; cbn [this log notified].
  - apply ready_setCredentials, H.
  - unfold initializer_calls. rewrite count_snoc. cbn [is_initializer]. lia.
Qed.

Lemma refresh_with_calm (f : DoFetch) :
  calm_executor f ->
  forall token w, ready (this w) -> post (refresh_with f token w) (calm w).
Proof.
  intros Hf token w Hw. rewrite refresh_with_step.
  assert (H0 : calm w (after (Refreshing token) w)) by (apply calm_after; auto).
  specialize (Hf "POST" token_url JsNull
                 (JsString (refresh_grant token (this w))) token_options
                 (after (Refreshing token) w) (proj1 H0)).
  destruct (f _ _ _ _ _ _) as [b w'|e w'|]; cbn in *; [| |exact I].
  - eapply calm_trans; [exact H0|]. eapply calm_trans; [exact Hf|].
    apply calm_credentials, Hf.
  - eapply calm_trans; [exact H0|]. eapply calm_trans; [exact Hf|].
    apply calm_after; [apply Hf | reflexivity].
Qed.

Lemma doFetch_calm (fuel : nat) : calm_executor (doFetch fuel).
Proof.
  induction fuel as [|fuel IH]; intros method url query payload options w Hw.
  - exact I.
  - rewrite doFetch_step, (bootstrap_ready w Hw). cbn zeta.
    pose proof (dispatch_ends (full_url url query)
      (fetchOpts method payload (with_defaults options) (access_token (this w))) w) as He.
    assert (H1 : calm w (after (Fetch (full_url url query)
      (fetchOpts method payload (with_defaults options) (access_token (this w)))) w))
      by (apply calm_after; auto).
    destruct (dispatch _ _ w) as [v w1|e w1|]; cbn in He; [subst w1; exact H1| |contradiction].
    subst w1.
    assert (H2 : forall e', post (@Throws JsValue e' (after (ConsoleError e') (after (Fetch (full_url url query)
      (fetchOpts method payload (with_defaults options) (access_token (this w)))) w))) (calm w)).
    { intros e'. cbn. eapply calm_trans; [exact H1|].
      apply calm_after; [apply H1 | reflexivity]. }
    destruct e; try apply H2.
    destruct (retry_count (with_defaults options) <? 1); [|exact H1].
    pose proof (refresh_with_calm (doFetch fuel) IH
      (refresh_token (this (after (Fetch (full_url url query)
        (fetchOpts method payload (with_defaults options) (access_token (this w)))) w)))
      _ (proj1 H1)) as Hr.
    unfold refreshAccessToken.
    destruct (refresh_with _ _ _) as [v2 w2|e2 w2|]; cbn in Hr; [| |exact I].
    + specialize (IH method url query payload
        (Some {| retries := Some (retry_count (with_defaults options) + 1);
                 headers := headers (with_defaults options) |}) w2 (proj1 Hr)).
      destruct (doFetch fuel _ _ _ _ _ w2); cbn in *; [| |exact I];
        (eapply calm_trans; [exact H1|]; eapply calm_trans; [exact Hr|]; exact IH).
    + cbn. eapply calm_trans; [exact H1 | exact Hr].
Qed.

(** *** More fuel does not change a settled outcome *)

Lemma doFetch_fuel (fuel : nat) :
  forall method url query payload options w,
    doFetch fuel method url query payload options w <> Pending ->
    doFetch (S fuel) method url query payload options w
    = doFetch fuel method url query payload options w.
Proof.
  induction fuel as [|fuel IH]; intros method url query payload options w Hs.
  - contradiction Hs. reflexivity.
  - rewrite (doFetch_step (S fuel)). rewrite doFetch_step in Hs |- *.
    destruct (bootstrap w) as [[] w0|e w0|]; try reflexivity. cbn zeta in *.
    destruct (dispatch _ _ w0) as [v w1|e w1|]; try reflexivity.
    destruct e; try reflexivity.
    destruct (retry_count (with_defaults options) <? 1); [|reflexivity].
    rewrite !refreshAccessToken_step in *.
    destruct (doFetch fuel "POST" _ _ _ _ _) as [b wr|e wr|] eqn:E.
    + rewrite IH, E by (rewrite E; discriminate).
      apply IH. exact Hs.
    + rewrite IH, E by (rewrite E; discriminate).
      apply IH. exact Hs.
    + contradiction Hs. reflexivity.
Qed.

(** ** setCredentials *)

Lemma lookup_absent (key : string) (properties : list (string * JsValue)) :
  existsb (fun kv => String.eqb (fst kv) key) properties = false ->
  lookup key properties = JsUndefined.
Proof.
  induction properties as [|[k v] rest IH]; cbn; [reflexivity|].
  destruct (String.eqb k key); cbn; [discriminate | exact IH].
Qed.

Lemma field_absent (key : string) (creds : JsValue) :
  has_field key creds = false -> field creds key = JsUndefined.
Proof.
  destruct creds; cbn; try reflexivity.
  intros H. unfold field. cbn. apply lookup_absent, H.
Qed.

(** C8, the claim as written, at a present but empty field: the argument
    has an own [access_token], the empty string, and the state keeps the
    token it had. *)
Lemma setCredentials_keeps_token_when_field_is_empty :
  has_field "access_token" (JsObject [("access_token", JsString EmptyString)]) = true /\
  access_token (with_tokens "A" "R") = JsString "A" /\
  access_token
    (setCredentials (JsObject [("access_token", JsString EmptyString)])
       (with_tokens "A" "R")) = JsString "A" /\
  access_token
    (setCredentials (JsObject [("access_token", JsString EmptyString)])
       (with_tokens "A" "R"))
  <> field (JsObject [("access_token", JsString EmptyString)]) "access_token".
Proof. repeat split; try reflexivity. cbn. discriminate. Qed.

Lemma setCredentials_access (creds : JsValue) (c : TDAConnector) :
  access_token (setCredentials creds c) =
    (if truthy creds && truthy (field creds "access_token")
     then field creds "access_token" else access_token c).
Proof.
  unfold setCredentials. destruct (truthy creds); [|reflexivity].
  destruct (truthy (field creds "access_token")),
           (truthy (field creds "refresh_token")); reflexivity.
Qed.

Lemma setCredentials_refresh (creds : JsValue) (c : TDAConnector) :
  refresh_token (setCredentials creds c) =
    (if truthy creds && truthy (field creds "refresh_token")
     then field creds "refresh_token" else refresh_token c).
Proof.
  unfold setCredentials. destruct (truthy creds); [|reflexivity].
  destruct (truthy (field creds "access_token")),
           (truthy (field creds "refresh_token")); reflexivity.
Qed.

(** C8, amended: [setCredentials] overwrites a token field exactly when the
    argument is truthy and carries a truthy value for it; a field that is
    absent (or falsy) leaves the held token as it was, so an object with only
    a [refresh_token] keeps the [access_token]; nothing else in the state
    changes. *)
Theorem setCredentials_partial_update (creds : JsValue) (c : TDAConnector) :
  access_token (setCredentials creds c) =
    (if truthy creds && truthy (field creds "access_token")
     then field creds "access_token" else access_token c) /\
  refresh_token (setCredentials creds c) =
    (if truthy creds && truthy (field creds "refresh_token")
     then field creds "refresh_token" else refresh_token c) /\
  (has_field "access_token" creds = false ->
     access_token (setCredentials creds c) = access_token c) /\
  (has_field "refresh_token" creds = false ->
     refresh_token (setCredentials creds c) = refresh_token c) /\
  client_id (setCredentials creds c) = client_id c /\
  redirect_uri (setCredentials creds c) = redirect_uri c /\
  credentialInitializer (setCredentials creds c) = credentialInitializer c /\
  base_url (setCredentials creds c) = base_url c.
Proof.
  split; [apply setCredentials_access|]. split; [apply setCredentials_refresh|].
  split; [|split].
  - intros H. rewrite setCredentials_access, (field_absent _ _ H). cbn.
    rewrite andb_false_r. reflexivity.
  - intros H. rewrite setCredentials_refresh, (field_absent _ _ H). cbn.
    rewrite andb_false_r. reflexivity.
  - unfold setCredentials. destruct (truthy creds); [|tauto].
    destruct (truthy (field creds "access_token")),
             (truthy (field creds "refresh_token")); cbn; tauto.
Qed.

(** ** Classification of responses *)

(** C4 at a 401 or 403 whose body is the JSON value [null]: the read of
    [result.error] throws before the authentication error is built, so what
    is raised is a [TypeError], on every host and in every world. *)
Theorem handleNotOk_null_body_is_a_TypeError (w : World) :
  handleNotOk {| status := 401; json := Some JsNull |} w =
  Throws (TypeError "Cannot read properties of null (reading 'error')") w /\
  handleNotOk {| status := 403; json := Some JsNull |} w =
  Throws (TypeError "Cannot read properties of null (reading 'error')") w /\
  forall message,
    handleNotOk {| status := 401; json := Some JsNull |} w
    <> Throws (ApiAuthError message) w.
Proof.
  split; [reflexivity|]. split; [reflexivity|].
  intros message. rewrite handleNotOk_cases. cbn. discriminate.
Qed.

(** What [doFetch] makes of it: the error is logged and re-thrown, no refresh
    is attempted. *)
Lemma doFetch_null_body_is_not_refreshed (fuel : nat) (method url : string)
    (query payload : JsValue) (options : option Options) (w : World) (code : Z) :
  ready (this w) ->
  code = 401 \/ code = 403 ->
  fetch (log w) (full_url url query)
    (fetchOpts method payload (with_defaults options) (access_token (this w)))
  = Responds {| status := code; json := Some JsNull |} ->
  exists e,
    e = TypeError "Cannot read properties of null (reading 'error')" /\
    doFetch (S fuel) method url query payload options w =
    Throws e
      (after (ConsoleError e)
         (after (Fetch (full_url url query)
            (fetchOpts method payload (with_defaults options) (access_token (this w)))) w)).
Proof.
  intros Hr Hc Hf. eexists; split; [reflexivity|].
  rewrite doFetch_step, (bootstrap_ready w Hr). cbn zeta.
  rewrite dispatch_cases, Hf.
  destruct Hc as [-> | ->]; reflexivity.
Qed.

(** The rest of the classification, for a body that parses to [b]. *)
Lemma classification (url : string) (opts : FetchOpts) (w : World)
    (r : Response) (b : JsValue) :
  fetch (log w) url opts = Responds r ->
  json r = Some b ->
  let w' := after (Fetch url opts) w in
  (200 <= status r < 300 -> dispatch url opts w = Returns b w') /\
  (300 <= status r < 400 -> dispatch url opts w = Returns b w') /\
  ((status r = 401 \/ status r = 403) -> nullish b = false ->
     dispatch url opts w = Throws (ApiAuthError (JSON_stringify b)) w') /\
  (400 <= status r < 500 -> status r <> 401 -> status r <> 403 ->
     dispatch url opts w = Returns b w') /\
  (500 <= status r -> dispatch url opts w = Returns b w').
Proof.
  intros Hf Hj w'. repeat split.
  - intros H. apply (dispatch_ok _ _ _ r); auto.
    unfold ok. apply andb_true_iff. split; [apply Z.leb_le | apply Z.ltb_lt]; lia.
  - intros H. apply (dispatch_passed _ _ _ r); auto; lia.
  - intros H Hn. apply (dispatch_auth _ _ _ r); auto. repeat split; auto.
  - intros H H1 H3. apply (dispatch_passed _ _ _ r); auto; lia.
  - intros H. apply (dispatch_passed _ _ _ r); auto; lia.
Qed.

(** ** The token exchanges swallow errors *)

(** C5: when the [doFetch] call of [getAccessToken] or of
    [refreshAccessToken] rejects, the method logs the error with
    [console.error] and resolves to [undefined]; neither method ever
    rejects. *)
Theorem token_exchanges_swallow_errors (fuel : nat) (w : World) :
  (forall code e w',
     doFetch fuel "POST" token_url JsNull (JsString (code_grant code (this w)))
       token_options w = Throws e w' ->
     getAccessToken fuel code w = Returns JsUndefined (after (ConsoleError e) w')) /\
  (forall token e w',
     doFetch fuel "POST" token_url JsNull (JsString (refresh_grant token (this w)))
       token_options (after (Refreshing token) w) = Throws e w' ->
     refreshAccessToken fuel token w = Returns JsUndefined (after (ConsoleError e) w')) /\
  (forall code e w', getAccessToken fuel code w <> Throws e w') /\
  (forall token e w', refreshAccessToken fuel token w <> Throws e w').
Proof.
  repeat split.
  - intros code e w' H. rewrite getAccessToken_step, H. reflexivity.
  - intros token e w' H. rewrite refreshAccessToken_step, H. reflexivity.
  - intros code e w'. rewrite getAccessToken_step.
    destruct (doFetch _ _ _ _ _ _ _); discriminate.
  - intros token e w'. rewrite refreshAccessToken_step.
    destruct (doFetch _ _ _ _ _ _ _); discriminate.
Qed.

End Facts.

Lemma setCredentials_partial_update_witness :
  access_token (setCredentials tokenless (with_tokens "A" "R")) = JsString "A".
Proof.
  apply (proj1 (proj2 (proj2 (setCredentials_partial_update tokenless
                                (with_tokens "A" "R"))))).
  reflexivity.
Defined.

Lemma token_exchanges_swallow_errors_witness :
  getAccessToken (host := down) 1 "c0de" (fresh (with_tokens "A" "R")) =
  Returns JsUndefined
    (after (ConsoleError (FetchError "ECONNREFUSED"))
       (after (ConsoleError (FetchError "ECONNREFUSED"))
          (after (Fetch token_url
                    (token_request (code_grant (host := down) "c0de" (with_tokens "A" "R"))))
             (fresh (with_tokens "A" "R"))))).
Proof.
  apply (proj1 (token_exchanges_swallow_errors (host := down) 1
                  (fresh (with_tokens "A" "R")))).
  reflexivity.
Defined.

Section Bootstrap.
Context {host : Host}.

Lemma get_prop_nullish (v : JsValue) (key : string) :
  nullish v = true -> exists msg, get_prop v key = inl (TypeError msg).
Proof. destruct v; cbn; try discriminate; eauto. Qed.

Lemma adopt_is_setCredentials (creds : JsValue) (c : TDAConnector) :
  (if truthy (field creds "refresh_token")
   then set_refresh_token (field creds "refresh_token")
          (if truthy (field creds "access_token")
           then set_access_token (field creds "access_token") c else c)
   else if truthy (field creds "access_token")
        then set_access_token (field creds "access_token") c else c)
  = setCredentials creds c.
Proof.
  unfold setCredentials. destruct (truthy creds) eqn:T; [reflexivity|].
  destruct creds; cbn in T; try discriminate; reflexivity.
Qed.

Lemma bootstrap_cases (w : World) :
  bootstrap w =
  match credentialInitializer (this w) with
  | Some call =>
    if negb (truthy (access_token (this w))) then
      match call (log w) with
      | Fails v => Throws (Thrown v) (after Initializer w)
      | Resolves creds =>
        match get_prop creds "access_token" with
        | inl e => Throws e (after Initializer w)
        | inr _ =>
          Returns tt {| this := setCredentials creds (this w);
                        log := (log w ++ [Initializer])%list |}
        end
      end
    else Returns tt w
  | None => Returns tt w
  end.
Proof.
  unfold bootstrap, bind, read. cbn.
  destruct (credentialInitializer (this w)) as [call|]; [|reflexivity].
  destruct (truthy (access_token (this w))); [reflexivity|]. cbn.
  destruct (call (log w)) as [creds|v]; [|reflexivity].
  rewrite <- adopt_is_setCredentials.
  destruct creds; cbn; try reflexivity; unfold field; cbn;
    repeat match goal with
           | |- context [truthy ?x] => destruct (truthy x); cbn
           end; reflexivity.
Qed.

Lemma bootstrap_counts (w w0 : World) (p : Event -> bool) :
  bootstrap w = Returns tt w0 ->
  p Initializer = false ->
  count p (log w0) = count p (log w).
Proof.
  rewrite bootstrap_cases. intros H Hp.
  destruct (credentialInitializer (this w)) as [call|]; [|congruence].
  destruct (negb (truthy (access_token (this w)))); [|congruence].
  destruct (call (log w)) as [creds|v]; [|discriminate].
  destruct (get_prop creds "access_token"); [discriminate|].
  inversion H; subst. cbn [log]. rewrite count_snoc, Hp. lia.
Qed.

Lemma token_fetchOpts (payload : string) (token : JsValue) :
  truthy (JsString payload) = true ->
  fetchOpts "POST" (JsString payload) (with_defaults token_options) token
  = token_request payload.
Proof.
  intros H. unfold fetchOpts, token_request. cbn [with_defaults token_options
    retries headers request_headers]. unfold request_body. rewrite H. reflexivity.
Qed.

Lemma code_grant_truthy (code : string) (c : TDAConnector) :
  truthy (JsString (code_grant code c)) = true.
Proof. reflexivity. Qed.

Lemma refresh_grant_truthy (token : JsValue) (c : TDAConnector) :
  truthy (JsString (refresh_grant token c)) = true.
Proof. reflexivity. Qed.

(** A token POST that is answered with a value settles the exchange. *)
Lemma token_post_resolves (fuel : nat) (payload : string) (w w0 : World) (b : JsValue) :
  truthy (JsString payload) = true ->
  bootstrap w = Returns tt w0 ->
  dispatch token_url (token_request payload) w0
  = Returns b (after (Fetch token_url (token_request payload)) w0) ->
  doFetch (S fuel) "POST" token_url JsNull (JsString payload) token_options w
  = Returns b (after (Fetch token_url (token_request payload)) w0).
Proof.
  intros Hp Hb Hd. rewrite doFetch_step, Hb. cbn zeta.
  rewrite (token_fetchOpts _ _ Hp).
  change (full_url token_url JsNull) with token_url.
  rewrite Hd. reflexivity.
Qed.

Lemma field_truthy (b : JsValue) (key : string) :
  truthy (field b key) = true -> truthy b = true.
Proof. destruct b; cbn; try discriminate; auto. Qed.

End Bootstrap.

Section Exchanges.
Context {host : Host}.

Lemma notified_after_fetch (b : JsValue) (url : string) (opts : FetchOpts) (w : World) :
  notified b (after (Fetch url opts) w) =
  {| this := setCredentials b (this w);
     log := (log w ++ [Fetch url opts; Emit "token" b])%list |}.
Proof. unfold notified, after. cbn. rewrite <- app_assoc. reflexivity. Qed.

Lemma token_events_exchange (b : JsValue) (url : string) (opts : FetchOpts) (l : Log) :
  token_events (l ++ [Fetch url opts; Emit "token" b])%list = S (token_events l).
Proof.
  unfold token_events, count. rewrite filter_app, length_app. cbn. lia.
Qed.

(** C10: with no access token held and an initializer that resolves to
    [null] or [undefined], every domain call rejects with the [TypeError] of
    the property read, right after the initializer ran: no request is sent. *)
Theorem nullish_credentials_raise_TypeError (fuel : nat) (d : DomainCall) (w : World)
    (initializer : Log -> InitOutcome) (creds : JsValue) :
  credentialInitializer (this w) = Some initializer ->
  truthy (access_token (this w)) = false ->
  initializer (log w) = Resolves creds ->
  nullish creds = true ->
  exists msg,
    get_prop creds "access_token" = inl (TypeError msg) /\
    invoke (S fuel) d w = Throws (TypeError msg) (after Initializer w).
Proof.
  intros Hi Ht Hc Hn.
  destruct (get_prop_nullish creds "access_token" Hn) as [msg Hm].
  exists msg. split; [exact Hm|].
  assert (Hb : bootstrap w = Throws (TypeError msg) (after Initializer w)).
  { rewrite bootstrap_cases, Hi, Ht, Hc, Hm. reflexivity. }
  destruct d; cbn [invoke]; unfold getAccounts, getAccount, searchInstruments,
    getQuote, getPriceHistory, getTransactions, getTransaction, bind, read;
    rewrite doFetch_step, Hb; reflexivity.
Qed.

(** C7: when the token endpoint answers the authorization-code POST with a
    2xx status and a JSON body [b], [getAccessToken] resolves to [b]; the
    world it returns in has [b] stored by [setCredentials] and one more
    [token] notification, with payload [b], as the last thing that happened;
    truthy tokens of [b] are the tokens held afterwards. *)
Theorem code_exchange_success (fuel : nat) (code : string) (w w0 : World)
    (r : Response) (b : JsValue) :
  bootstrap w = Returns tt w0 ->
  fetch (log w0) token_url (token_request (code_grant code (this w))) = Responds r ->
  ok r = true ->
  json r = Some b ->
  let request := token_request (code_grant code (this w)) in
  let w' := {| this := setCredentials b (this w0);
               log := (log w0 ++ [Fetch token_url request; Emit "token" b])%list |} in
  getAccessToken (S fuel) code w = Returns b w' /\
  token_events (log w') = S (token_events (log w)) /\
  (truthy (field b "access_token") = true ->
     access_token (this w') = field b "access_token") /\
  (truthy (field b "refresh_token") = true ->
     refresh_token (this w') = field b "refresh_token").
Proof.
  intros Hb Hf Hok Hj request w'.
  pose proof (setCredentials_access b (this w0)) as A.
  pose proof (setCredentials_refresh b (this w0)) as R.
  repeat split.
  - rewrite getAccessToken_step.
    rewrite (token_post_resolves fuel _ w w0 b (code_grant_truthy _ _) Hb
               (dispatch_ok _ _ _ r b Hf Hok Hj)).
    rewrite notified_after_fetch. reflexivity.
  - subst w'. cbn [log]. rewrite token_events_exchange.
    f_equal. apply (bootstrap_counts w w0 is_token Hb). reflexivity.
  - intros H. subst w'. cbn [this]. rewrite A, H, (field_truthy _ _ H). reflexivity.
  - intros H. subst w'. cbn [this]. rewrite R, H, (field_truthy _ _ H). reflexivity.
Qed.

(** C9: when the token endpoint answers the POST of [getAccessToken] or of
    [refreshAccessToken] with a status from 300 up (node-fetch delivers no
    1xx) other than 401 and 403 and a JSON body [b], the method resolves to
    [b], having emitted [token] with payload [b] and passed [b] to
    [setCredentials]: the same world a successful exchange with body [b]
    ends in. *)
Theorem failed_exchange_is_notified (fuel : nat) (w : World) (r : Response) (b : JsValue) :
  300 <= status r -> status r <> 401 -> status r <> 403 ->
  json r = Some b ->
  (forall code w0,
     bootstrap w = Returns tt w0 ->
     fetch (log w0) token_url (token_request (code_grant code (this w))) = Responds r ->
     getAccessToken (S fuel) code w =
     Returns b
       {| this := setCredentials b (this w0);
          log := (log w0 ++ [Fetch token_url (token_request (code_grant code (this w)));
                             Emit "token" b])%list |}) /\
  (forall token w0,
     bootstrap (after (Refreshing token) w) = Returns tt w0 ->
     fetch (log w0) token_url (token_request (refresh_grant token (this w))) = Responds r ->
     refreshAccessToken (S fuel) token w =
     Returns b
       {| this := setCredentials b (this w0);
          log := (log w0 ++ [Fetch token_url (token_request (refresh_grant token (this w)));
                             Emit "token" b])%list |}).
Proof.
  intros H3 H401 H403 Hj. split.
  - intros code w0 Hb Hf. rewrite getAccessToken_step.
    rewrite (token_post_resolves fuel _ w w0 b (code_grant_truthy _ _) Hb
               (dispatch_passed _ _ _ r b Hf H3 H401 H403 Hj)).
    rewrite notified_after_fetch. reflexivity.
  - intros token w0 Hb Hf. rewrite refreshAccessToken_step.
    rewrite (token_post_resolves fuel _ _ w0 b (refresh_grant_truthy _ _) Hb
               (dispatch_passed _ _ _ r b Hf H3 H401 H403 Hj)).
    rewrite notified_after_fetch. reflexivity.
Qed.

End Exchanges.

Lemma nullish_credentials_raise_TypeError_witness :
  exists msg,
    get_prop JsNull "access_token" = inl (TypeError msg) /\
    invoke (host := down) 1 (GetQuote "TSLA") (fresh (initialized_by JsNull)) =
    Throws (TypeError msg) (after Initializer (fresh (initialized_by JsNull))).
Proof.
  apply (nullish_credentials_raise_TypeError (host := down) 0 (GetQuote "TSLA")
           (fresh (initialized_by JsNull)) (fun _ => Resolves JsNull) JsNull);
    reflexivity.
Defined.

Lemma code_exchange_success_witness :
  getAccessToken (host := issuing) 1 "c0de" (fresh (constructor "ABC123" "https://x/cb" None))
  = Returns (credentials "A1" "R1")
      {| this := with_tokens "A1" "R1";
         log := [Fetch token_url
                   (token_request
                      (code_grant (host := issuing) "c0de"
                         (constructor "ABC123" "https://x/cb" None)));
                 Emit "token" (credentials "A1" "R1")] |}.
Proof.
  apply (code_exchange_success (host := issuing) 0 "c0de"
           (fresh (constructor "ABC123" "https://x/cb" None))
           (fresh (constructor "ABC123" "https://x/cb" None))
           {| status := 200; json := Some (credentials "A1" "R1") |}
           (credentials "A1" "R1")); reflexivity.
Defined.

Lemma failed_exchange_is_notified_witness :
  getAccessToken (host := refusing) 1 "c0de" (fresh (with_tokens "A" "R"))
  = Returns invalid_grant
      {| this := with_tokens "A" "R";
         log := [Fetch token_url
                   (token_request
                      (code_grant (host := refusing) "c0de" (with_tokens "A" "R")));
                 Emit "token" invalid_grant] |}.
Proof.
  apply (proj1 (failed_exchange_is_notified (host := refusing) 0
                  (fresh (with_tokens "A" "R"))
                  {| status := 400; json := Some invalid_grant |} invalid_grant
                  ltac:(cbn; lia) ltac:(cbn; lia) ltac:(cbn; lia) eq_refl)
           "c0de" (fresh (with_tokens "A" "R"))); reflexivity.
Defined.

Section Retry.
Context {host : Host}.

Lemma fetchOpts_headers (method : string) (payload : JsValue) (o1 o2 : Options)
    (token : JsValue) :
  headers o1 = headers o2 ->
  fetchOpts method payload o1 token = fetchOpts method payload o2 token.
Proof. intros H. unfold fetchOpts, request_headers. rewrite H. reflexivity. Qed.

Lemma with_defaults_retried (n : Z) (h : option Headers) :
  n <> 0 ->
  with_defaults (Some {| retries := Some n; headers := h |})
  = {| retries := Some n; headers := h |}.
Proof.
  intros H. unfold with_defaults. cbn.
  destruct (n =? 0) eqn:E; [apply Z.eqb_eq in E; contradiction | reflexivity].
Qed.

Lemma refreshAccessToken_needs_fuel (token : JsValue) (w : World) :
  refreshAccessToken 0 token w = Pending.
Proof. rewrite refreshAccessToken_step. reflexivity. Qed.

(** The retry of a request whose counter was zero: one more dispatch, and an
    authentication error from it is final. *)
Lemma retry_step (fuel : nat) (method url : string) (query payload : JsValue)
    (options : option Options) (w2 w3 : World) :
  retry_count (with_defaults options) = 0 ->
  bootstrap w2 = Returns tt w3 ->
  doFetch (S fuel) method url query payload
    (Some {| retries := Some (retry_count (with_defaults options) + 1);
             headers := headers (with_defaults options) |}) w2
  = match dispatch (full_url url query)
            (fetchOpts method payload (with_defaults options) (access_token (this w3)))
            w3 with
    | Returns b w4 => Returns b w4
    | Throws (ApiAuthError msg) w4 => Throws (ApiAuthError msg) w4
    | Throws e w4 => Throws e (after (ConsoleError e) w4)
    | Pending => Pending
    end.
Proof.
  intros H0 Hb. rewrite doFetch_step, Hb. cbn zeta.
  rewrite H0. rewrite with_defaults_retried by lia.
  rewrite (fetchOpts_headers method payload _ (with_defaults options)) by reflexivity.
  destruct (dispatch _ _ w3) as [b w4|e w4|]; reflexivity.
Qed.

Lemma dispatch_unparsable (url : string) (opts : FetchOpts) (w : World)
    (r : Response) :
  fetch (log w) url opts = Responds r ->
  json r = None ->
  dispatch url opts w = Throws (FetchError "invalid-json") (after (Fetch url opts) w).
Proof.
  intros Hf Hj. rewrite dispatch_cases, Hf.
  destruct (ok r).
  - unfold response_json. rewrite Hj. reflexivity.
  - rewrite handleNotOk_cases, Hj. reflexivity.
Qed.

(** C2, amended: a request with a fresh retry counter whose dispatch is
    rejected with 401/403 (body a JSON value other than [null], so that it
    is refreshed) and answered 401/403 again when it is retried after the
    refresh.  When the second body parses to a JSON value other than [null]
    the call rejects with the authentication error of that body; when it
    does not parse the call rejects with the parse error, logged.  Whatever
    the second body is, the call settles right after the retried dispatch:
    one request and no entry into [refreshAccessToken] beyond the refresh
    that preceded the retry. *)
Theorem second_rejection_is_raised (fuel : nat) (method url : string)
    (query payload : JsValue) (options : option Options)
    (w w0 w2 w3 : World) (r1 r2 : Response) (b1 v : JsValue) :
  let target := full_url url query in
  let request := fetchOpts method payload (with_defaults options) in
  retry_count (with_defaults options) = 0 ->
  bootstrap w = Returns tt w0 ->
  fetch (log w0) target (request (access_token (this w0))) = Responds r1 ->
  auth_rejection r1 b1 ->
  refreshAccessToken fuel (refresh_token (this w0))
    (after (Fetch target (request (access_token (this w0)))) w0) = Returns v w2 ->
  bootstrap w2 = Returns tt w3 ->
  fetch (log w3) target (request (access_token (this w3))) = Responds r2 ->
  status r2 = 401 \/ status r2 = 403 ->
  let w' := after (Fetch target (request (access_token (this w3)))) w3 in
  (forall b2, json r2 = Some b2 -> nullish b2 = false ->
     doFetch (S fuel) method url query payload options w
     = Throws (ApiAuthError (JSON_stringify b2)) w') /\
  (json r2 = None ->
     doFetch (S fuel) method url query payload options w
     = Throws (FetchError "invalid-json")
         (after (ConsoleError (FetchError "invalid-json")) w')) /\
  (forall wf,
     ends_in (doFetch (S fuel) method url query payload options w) wf ->
     fetch_calls (log wf) = S (fetch_calls (log w2)) /\
     refresh_calls (log wf) = refresh_calls (log w2)).
Proof.
  intros target request H0 Hb Hf1 Ha1 Hr Hb2 Hf2 Hs2 w'.
  assert (Estep : doFetch (S fuel) method url query payload options w
            = match dispatch target (request (access_token (this w3))) w3 with
              | Returns b w4 => Returns b w4
              | Throws (ApiAuthError msg) w4 => Throws (ApiAuthError msg) w4
              | Throws e w4 => Throws e (after (ConsoleError e) w4)
              | Pending => Pending
              end).
  { rewrite doFetch_step, Hb. cbn zeta.
    fold target. fold request.
    rewrite (dispatch_auth _ _ _ r1 b1 Hf1 Ha1).
    rewrite H0. cbn [Z.ltb Z.compare].
    change (this (after (Fetch target (request (access_token (this w0)))) w0))
      with (this w0).
    rewrite Hr.
    destruct fuel as [|fuel].
    { rewrite refreshAccessToken_needs_fuel in Hr. discriminate. }
    rewrite <- H0 at 1.
    apply (retry_step fuel method url query payload options w2 w3 H0 Hb2). }
  split; [|split].
  - intros b2 Hj Hn. rewrite Estep.
    rewrite (dispatch_auth _ _ _ r2 b2 Hf2 (conj Hs2 (conj Hj Hn))). reflexivity.
  - intros Hj. rewrite Estep.
    rewrite (dispatch_unparsable _ _ _ r2 Hf2 Hj). reflexivity.
  - intros wf He. rewrite Estep in He.
    pose proof (dispatch_ends target (request (access_token (this w3))) w3) as Hd.
    assert (C : forall wx, wx = w' \/ (exists e, wx = after (ConsoleError e) w') ->
              fetch_calls (log wx) = S (fetch_calls (log w2)) /\
              refresh_calls (log wx) = refresh_calls (log w2)).
    { intros wx Hx. unfold fetch_calls, refresh_calls.
      pose proof (bootstrap_counts w2 w3 is_fetch Hb2 eq_refl) as F.
      pose proof (bootstrap_counts w2 w3 is_refreshing Hb2 eq_refl) as R.
      destruct Hx as [-> | [e ->]]; subst w'; rewrite !count_after; cbn; lia. }
    destruct (dispatch _ _ w3) as [b w4|e w4|]; cbn in Hd; try contradiction; subst w4.
    + cbn in He. subst wf. apply C. left. reflexivity.
    + destruct e; cbn in He; subst wf; apply C;
        first [left; reflexivity | right; eexists; reflexivity].
Qed.

(** A refresh whose POST is not answered 401/403 settles whatever the fuel,
    and is one entry into [refreshAccessToken] and one request. *)
Lemma refresh_settles (token : JsValue) (w wb : World) :
  bootstrap (after (Refreshing token) w) = Returns tt wb ->
  (forall r,
     fetch (log wb) token_url (token_request (refresh_grant token (this w))) = Responds r ->
     status r <> 401 /\ status r <> 403) ->
  exists v w2,
    (forall fuel, refreshAccessToken (S fuel) token w = Returns v w2) /\
    refresh_calls (log w2) = S (refresh_calls (log w)) /\
    fetch_calls (log w2) = S (fetch_calls (log w)).
Proof.
  intros Hb Hpost.
  pose proof (dispatch_ends token_url (token_request (refresh_grant token (this w))) wb)
    as He.
  pose proof (dispatch_not_auth token_url (token_request (refresh_grant token (this w)))
                wb Hpost) as Hn.
  assert (Hr : refresh_calls (log wb) = S (refresh_calls (log w))).
  { unfold refresh_calls. rewrite (bootstrap_counts _ wb is_refreshing Hb eq_refl).
    rewrite count_after. cbn [is_refreshing]. lia. }
  assert (Hf : fetch_calls (log wb) = fetch_calls (log w)).
  { unfold fetch_calls. rewrite (bootstrap_counts _ wb is_fetch Hb eq_refl).
    rewrite count_after. cbn [is_fetch]. lia. }
  assert (Hstep : forall fuel, refreshAccessToken (S fuel) token w =
            match dispatch token_url (token_request (refresh_grant token (this w))) wb with
            | Returns b wd => Returns b (notified b wd)
            | Throws e wd => Returns JsUndefined (after (ConsoleError e) (after (ConsoleError e) wd))
            | Pending => Pending
            end).
  { intros fuel. rewrite refreshAccessToken_step, doFetch_step, Hb. cbn zeta.
    rewrite (token_fetchOpts _ _ (refresh_grant_truthy _ _)).
    change (full_url token_url JsNull) with token_url.
    destruct (dispatch _ _ wb) as [b wd|e wd|]; try reflexivity.
    destruct e; try reflexivity. exfalso. eapply Hn. reflexivity. }
  destruct (dispatch _ _ wb) as [b wd|e wd|]; cbn in He; [| |contradiction]; subst wd.
  - exists b, (notified b (after (Fetch token_url
                 (token_request (refresh_grant token (this w)))) wb)).
    split; [exact Hstep|]. unfold notified. cbn [log after].
    unfold refresh_calls, fetch_calls in *. rewrite !count_snoc. cbn. lia.
  - eexists JsUndefined, _. split; [exact Hstep|]. cbn [log after].
    unfold refresh_calls, fetch_calls in *. rewrite !count_snoc. cbn. lia.
Qed.

Lemma refresh_single (fuel : nat) (token v : JsValue) (w wb w2 : World) :
  bootstrap (after (Refreshing token) w) = Returns tt wb ->
  (forall r,
     fetch (log wb) token_url (token_request (refresh_grant token (this w))) = Responds r ->
     status r <> 401 /\ status r <> 403) ->
  refreshAccessToken fuel token w = Returns v w2 ->
  refresh_calls (log w2) = S (refresh_calls (log w)) /\
  fetch_calls (log w2) = S (fetch_calls (log w)).
Proof.
  intros Hb Hpost Hr.
  destruct (refresh_settles token w wb Hb Hpost) as (v' & w2' & Hall & Hc).
  destruct fuel as [|fuel]; [rewrite refreshAccessToken_needs_fuel in Hr; discriminate|].
  rewrite Hall in Hr. inversion Hr; subst. exact Hc.
Qed.

(** C3, amended: a request with a fresh retry counter whose first dispatch
    is answered 401/403.  When that body parses to a JSON value other than
    [null], the refresh POST is not answered 401/403 and the retried
    dispatch is answered 2xx with body [b], the call resolves to [b];
    serving it took one entry into [refreshAccessToken] and three requests:
    the original, the refresh POST, and one retry to the same url with the
    same method, payload and options (only the bearer token may differ).
    When the body of the 401/403 does not parse, there is no refresh and no
    retry: the call rejects with the parse error, logged, after that one
    request. *)
Theorem single_rejection_is_retried_once (fuel : nat) (method url : string)
    (query payload : JsValue) (options : option Options)
    (w w0 wb w2 w3 : World) (r1 r2 : Response) (b v : JsValue) :
  let target := full_url url query in
  let request := fetchOpts method payload (with_defaults options) in
  let w1 := after (Fetch target (request (access_token (this w0)))) w0 in
  let held := refresh_token (this w0) in
  retry_count (with_defaults options) = 0 ->
  bootstrap w = Returns tt w0 ->
  fetch (log w0) target (request (access_token (this w0))) = Responds r1 ->
  status r1 = 401 \/ status r1 = 403 ->
  (forall b1,
     json r1 = Some b1 -> nullish b1 = false ->
     bootstrap (after (Refreshing held) w1) = Returns tt wb ->
     (forall r,
        fetch (log wb) token_url (token_request (refresh_grant held (this w0)))
        = Responds r ->
        status r <> 401 /\ status r <> 403) ->
     refreshAccessToken fuel held w1 = Returns v w2 ->
     bootstrap w2 = Returns tt w3 ->
     fetch (log w3) target (request (access_token (this w3))) = Responds r2 ->
     ok r2 = true ->
     json r2 = Some b ->
     let w' := after (Fetch target (request (access_token (this w3)))) w3 in
     doFetch (S fuel) method url query payload options w = Returns b w' /\
     refresh_calls (log w') = S (refresh_calls (log w)) /\
     fetch_calls (log w') = (3 + fetch_calls (log w))%nat) /\
  (json r1 = None ->
     let w' := after (ConsoleError (FetchError "invalid-json")) w1 in
     doFetch (S fuel) method url query payload options w
     = Throws (FetchError "invalid-json") w' /\
     refresh_calls (log w') = refresh_calls (log w) /\
     fetch_calls (log w') = S (fetch_calls (log w))).
Proof.
  intros target request w1 held H0 Hb Hf1 Hs1.
  split.
  - intros b1 Hj1 Hn1 Hbb Hpost Hr Hb3 Hf2 Hok Hj w'.
    destruct (refresh_single fuel held v w1 wb w2 Hbb Hpost Hr) as (Rc & Fc).
    split; [|split].
    + rewrite doFetch_step, Hb. cbn zeta.
      fold target. fold request.
      rewrite (dispatch_auth _ _ _ r1 b1 Hf1 (conj Hs1 (conj Hj1 Hn1))).
      rewrite H0. cbn [Z.ltb Z.compare].
      fold w1. change (refresh_token (this w1)) with held. rewrite Hr.
      destruct fuel as [|fuel].
      { rewrite refreshAccessToken_needs_fuel in Hr. discriminate. }
      rewrite <- H0 at 1.
      rewrite (retry_step fuel method url query payload options w2 w3 H0 Hb3).
      fold target. fold request.
      rewrite (dispatch_ok _ _ _ r2 b Hf2 Hok Hj). reflexivity.
    + subst w'. unfold refresh_calls in *. rewrite count_after. cbn [is_refreshing].
      rewrite (bootstrap_counts w2 w3 is_refreshing Hb3 eq_refl), Rc. subst w1.
      rewrite count_after. cbn [is_refreshing].
      rewrite (bootstrap_counts w w0 is_refreshing Hb eq_refl). lia.
    + subst w'. unfold fetch_calls in *. rewrite count_after. cbn [is_fetch].
      rewrite (bootstrap_counts w2 w3 is_fetch Hb3 eq_refl), Fc. subst w1.
      rewrite count_after. cbn [is_fetch].
      rewrite (bootstrap_counts w w0 is_fetch Hb eq_refl). lia.
  - intros Hj1 w'. split; [|split].
    + rewrite doFetch_step, Hb. cbn zeta.
      fold target. fold request.
      rewrite (dispatch_unparsable _ _ _ r1 Hf1 Hj1). reflexivity.
    + subst w' w1. unfold refresh_calls. rewrite !count_after. cbn.
      rewrite (bootstrap_counts w w0 is_refreshing Hb eq_refl). lia.
    + subst w' w1. unfold fetch_calls. rewrite !count_after. cbn.
      rewrite (bootstrap_counts w w0 is_fetch Hb eq_refl). lia.
Qed.

End Retry.

(** C2, the claim as written, at 401, a granted refresh, and a 401 whose
    body is not JSON: what reaches the caller after the one retry is the
    parse error, not the authentication error. *)
Lemma second_rejection_without_json_raises_the_parse_error :
  exists w',
    doFetch (host := expired_garbled) 2 "GET" quotes_url JsUndefined JsUndefined None
      (fresh (with_tokens "A" "R"))
    = Throws (FetchError "invalid-json") w' /\
    fetch_calls (log w') = 3%nat /\
    refresh_calls (log w') = 1%nat /\
    forall message w'',
      doFetch (host := expired_garbled) 2 "GET" quotes_url JsUndefined JsUndefined None
        (fresh (with_tokens "A" "R"))
      <> Throws (ApiAuthError message) w''.
Proof.
  exists (world_of (doFetch (host := expired_garbled) 2 "GET" quotes_url JsUndefined
                      JsUndefined None (fresh (with_tokens "A" "R")))
            (fresh (with_tokens "A" "R"))).
  split; [reflexivity|]. split; [reflexivity|]. split; [reflexivity|].
  intros message w'' H. vm_compute in H. discriminate.
Qed.

(** C3, the claim as written, at a single 401 whose body is not JSON: the
    request receives a 401 exactly once, and the call rejects with the parse
    error after one request, without refresh and without retry. *)
Lemma single_rejection_without_json_is_not_retried :
  exists w',
    doFetch (host := garbled) 2 "GET" quotes_url JsUndefined JsUndefined None
      (fresh (with_tokens "A" "R"))
    = Throws (FetchError "invalid-json") w' /\
    fetch_calls (log w') = 1%nat /\
    refresh_calls (log w') = 0%nat.
Proof.
  exists (world_of (doFetch (host := garbled) 2 "GET" quotes_url JsUndefined
                      JsUndefined None (fresh (with_tokens "A" "R")))
            (fresh (with_tokens "A" "R"))).
  repeat split.
Qed.

Lemma second_rejection_is_raised_witness :
  exists w',
    doFetch (host := expired) 2 "GET" quotes_url JsUndefined JsUndefined None
      (fresh (with_tokens "A" "R"))
    = Throws (ApiAuthError (show unauthorized)) w'.
Proof.
  eexists.
  eapply (proj1 (second_rejection_is_raised (host := expired) 1 "GET" quotes_url
                   JsUndefined JsUndefined None (fresh (with_tokens "A" "R"))
                   _ _ _ (mkResponse 401 (Some unauthorized))
                   (mkResponse 401 (Some unauthorized)) unauthorized _
                   eq_refl eq_refl eq_refl
                   (conj (or_introl eq_refl) (conj eq_refl eq_refl))
                   eq_refl eq_refl eq_refl (or_introl eq_refl))
            unauthorized eq_refl eq_refl).
Defined.

Lemma single_rejection_is_retried_once_witness :
  exists w',
    doFetch (host := stale) 2 "GET" quotes_url JsUndefined JsUndefined None
      (fresh (with_tokens "A" "R"))
    = Returns quote_body w'.
Proof.
  eexists.
  eapply (proj1 (proj1 (single_rejection_is_retried_once (host := stale) 1 "GET"
                   quotes_url JsUndefined JsUndefined None (fresh (with_tokens "A" "R"))
                   (fresh (with_tokens "A" "R")) _ _ _
                   (mkResponse 401 (Some unauthorized))
                   (mkResponse 200 (Some quote_body)) quote_body _
                   eq_refl eq_refl eq_refl (or_introl eq_refl))
            unauthorized eq_refl eq_refl
            eq_refl _ eq_refl eq_refl eq_refl eq_refl eq_refl)).
  Unshelve.
  intros r H. cbn in H. injection H as <-. cbn. split; discriminate.
Defined.

(** ** Nested refreshes *)

(** C1 at the exchange 401, 401, 200, 200, 200: the quote request is
    rejected, the refresh POST is rejected too, and the [doFetch] call that
    carries the refresh POST starts a refresh of its own (its options object
    is new, so its retry counter is zero).  The one quote request has been
    served with two entries into [refreshAccessToken] and three POSTs to the
    token endpoint. *)
Theorem rejected_refresh_is_refreshed_again :
  exists w',
    getQuote (host := rejecting_refresh) 3 "TSLA" (fresh (with_tokens "A" "R"))
    = Returns quote_body w' /\
    refresh_calls (log w') = 2%nat /\
    fetch_calls (log w') = 5%nat /\
    token_events (log w') = 2%nat.
Proof.
  exists (world_of (getQuote (host := rejecting_refresh) 3 "TSLA"
                      (fresh (with_tokens "A" "R")))
            (fresh (with_tokens "A" "R"))).
  repeat split.
Qed.

Lemma always_rejecting_fetch (past : Log) (url : string) (opts : FetchOpts) :
  fetch (Host := always_rejecting) past url opts = respond 401 unauthorized.
Proof. cbn. destruct (fetch_calls past); reflexivity. Qed.

(** When the token endpoint keeps answering 401, a request with a fresh
    counter never settles: each refresh POST starts the next refresh. *)
Lemma refresh_never_settles (fuel : nat) :
  forall (method url : string) (query payload : JsValue) (options : option Options)
         (w : World),
    ready (this w) ->
    (retry_count (with_defaults options) <? 1) = true ->
    doFetch (host := always_rejecting) fuel method url query payload options w = Pending.
Proof.
  induction fuel as [|fuel IH]; intros method url query payload options w Hw H0.
  - reflexivity.
  - rewrite doFetch_step, (bootstrap_ready w Hw). cbn zeta.
    rewrite (dispatch_auth (host := always_rejecting) _ _ _
               (mkResponse 401 (Some unauthorized)) unauthorized
               (always_rejecting_fetch _ _ _)
               (conj (or_introl eq_refl) (conj eq_refl eq_refl))).
    rewrite H0, refreshAccessToken_step.
    rewrite IH; [reflexivity | exact Hw | reflexivity].
Qed.

(** ** The credential initializer *)

Section Initializer.
Context {host : Host}.

Lemma doFetch_after_bootstrap (fuel : nat) (method url : string)
    (query payload : JsValue) (options : option Options) (w w0 : World) :
  bootstrap w = Returns tt w0 ->
  ready (this w0) ->
  doFetch (S fuel) method url query payload options w
  = doFetch (S fuel) method url query payload options w0.
Proof.
  intros Hb Hr. rewrite !doFetch_step, Hb, (bootstrap_ready w0 Hr). reflexivity.
Qed.

Lemma getAccessToken_calm (fuel : nat) (code : string) (w : World) :
  ready (this w) -> post (getAccessToken fuel code w) (calm w).
Proof.
  intros Hw. rewrite getAccessToken_step.
  pose proof (doFetch_calm fuel "POST" token_url JsNull
                (JsString (code_grant code (this w))) token_options w Hw) as Hf.
  destruct (doFetch _ _ _ _ _ _ _) as [b w'|e w'|]; cbn in *; [| |exact I].
  - eapply calm_trans; [exact Hf|]. apply calm_credentials, Hf.
  - eapply calm_trans; [exact Hf|]. apply calm_after; [apply Hf | reflexivity].
Qed.

Lemma invoke_is_doFetch (fuel : nat) (d : DomainCall) (w : World) :
  exists url query,
    invoke fuel d w = doFetch fuel "GET" url query JsUndefined None w.
Proof. destruct d; cbn; unfold bind, read; eauto. Qed.

Lemma perform_calm (fuel : nat) (c : ApiCall) (w : World) :
  ready (this w) -> post (perform fuel c w) (calm w).
Proof.
  intros Hw. destruct c as [d|code|token|creds]; cbn [perform].
  - destruct (invoke_is_doFetch fuel d w) as (url & query & ->).
    apply doFetch_calm, Hw.
  - apply getAccessToken_calm, Hw.
  - apply refresh_with_calm; [apply doFetch_calm | exact Hw].
  - cbn. split; [apply ready_setCredentials, Hw | reflexivity].
Qed.

Lemma session_calm (fuel : nat) (calls : list ApiCall) :
  forall w w', ready (this w) -> session fuel calls w = Some w' -> calm w w'.
Proof.
  induction calls as [|c rest IH]; intros w w' Hw Hs; cbn in Hs.
  - inversion Hs; subst. apply calm_refl, Hw.
  - pose proof (perform_calm fuel c w Hw) as Hp.
    destruct (perform fuel c w) as [v w1|e w1|]; cbn in Hp; [| |discriminate];
      (eapply calm_trans; [exact Hp | apply IH; [apply Hp | exact Hs]]).
Qed.

(** C6, amended: a connector with an initializer and no access token, whose
    initializer resolves to credentials with a truthy [access_token].  The
    bootstrap of the first domain call runs the initializer and stores what
    it returned as [setCredentials] would; when that call has settled the
    initializer has run exactly once more than before, and no sequence of
    later calls of the public methods runs it again. *)
Theorem initializer_runs_once (fuel : nat) (d : DomainCall) (w w1 : World)
    (initializer : Log -> InitOutcome) (creds : JsValue) :
  credentialInitializer (this w) = Some initializer ->
  truthy (access_token (this w)) = false ->
  initializer (log w) = Resolves creds ->
  truthy (field creds "access_token") = true ->
  ends_in (invoke fuel d w) w1 ->
  bootstrap w = Returns tt {| this := setCredentials creds (this w);
                              log := (log w ++ [Initializer])%list |} /\
  access_token (setCredentials creds (this w)) = field creds "access_token" /\
  initializer_calls (log w1) = S (initializer_calls (log w)) /\
  forall fuel' calls w2,
    session fuel' calls w1 = Some w2 ->
    initializer_calls (log w2) = S (initializer_calls (log w)).
Proof.
  intros Hi Ht Hc Ha He.
  pose proof (setCredentials_access creds (this w)) as A.
  rewrite Ha, (field_truthy _ _ Ha) in A. cbn [andb] in A.
  assert (Hb : bootstrap w = Returns tt {| this := setCredentials creds (this w);
                                          log := (log w ++ [Initializer])%list |}).
  { rewrite bootstrap_cases, Hi, Ht, Hc. cbn [negb].
    rewrite (get_prop_defined creds "access_token"); [reflexivity|].
    destruct creds; try reflexivity; discriminate. }
  assert (Hr : ready (this {| this := setCredentials creds (this w);
                              log := (log w ++ [Initializer])%list |})).
  { left. cbn [this]. rewrite A. exact Ha. }
  assert (Hcalm : calm {| this := setCredentials creds (this w);
                          log := (log w ++ [Initializer])%list |} w1).
  { destruct (invoke_is_doFetch fuel d w) as (url & query & E). rewrite E in He.
    destruct fuel as [|fuel]; [contradiction|].
    rewrite (doFetch_after_bootstrap fuel _ _ _ _ _ w _ Hb Hr) in He.
    pose proof (doFetch_calm (S fuel) "GET" url query JsUndefined None _ Hr) as Hp.
    destruct (doFetch _ _ _ _ _ _ _); cbn in He, Hp; subst; try contradiction; exact Hp. }
  assert (Hn : initializer_calls (log w1) = S (initializer_calls (log w))).
  { destruct Hcalm as [_ ->]. cbn [log]. unfold initializer_calls.
    rewrite count_snoc. cbn [is_initializer]. lia. }
  repeat split; auto.
  intros fuel' calls w2 Hs.
  destruct (session_calm fuel' calls w1 w2 (proj1 Hcalm) Hs) as [_ ->]. exact Hn.
Qed.

End Initializer.

(** C6, the claim as written, at an initializer that resolves to stored
    credentials without an access token: the first quote request runs it
    once, the second runs it again. *)
Lemma initializer_runs_on_every_call_without_token :
  credentialInitializer (initialized_by tokenless) <> None /\
  access_token (initialized_by tokenless) = JsNull /\
  option_map (fun w => initializer_calls (log w))
    (session (host := serving) 1 [Domain (GetQuote "TSLA")]
       (fresh (initialized_by tokenless))) = Some 1%nat /\
  option_map (fun w => initializer_calls (log w))
    (session (host := serving) 1 [Domain (GetQuote "TSLA"); Domain (GetQuote "TSLA")]
       (fresh (initialized_by tokenless))) = Some 2%nat.
Proof. repeat split. discriminate. Qed.

Lemma initializer_runs_once_witness :
  initializer_calls
    (log (world_of (invoke (host := serving) 1 (GetQuote "TSLA")
                      (fresh (initialized_by (credentials "A" "R"))))
            (fresh (initialized_by (credentials "A" "R"))))) = 1%nat.
Proof.
  apply (initializer_runs_once (host := serving) 1 (GetQuote "TSLA")
           (fresh (initialized_by (credentials "A" "R"))) _
           (fun _ => Resolves (credentials "A" "R")) (credentials "A" "R")
           eq_refl eq_refl eq_refl eq_refl eq_refl).
Defined.

(** ** What every call preserves *)

Lemma post_weaken {A} (o : Outcome A) (P Q : World -> Prop) :
  (forall w, P w -> Q w) -> post o P -> post o Q.
Proof. intros H. destruct o; cbn; auto. Qed.

Section Preserved.
Context {host : Host}.
Variable R : World -> World -> Prop.
Hypothesis R_refl : forall w, R w w.
Hypothesis R_trans : forall w1 w2 w3, R w1 w2 -> R w2 w3 -> R w1 w3.
Hypothesis R_after : forall e w, R w (after e w).
Hypothesis R_store :
  forall b w, R w {| this := setCredentials b (this w); log := log w |}.

Lemma notified_preserved (b : JsValue) (w : World) : R w (notified b w).
Proof.
  apply R_trans with {| this := setCredentials b (this w); log := log w |}.
  - apply R_store.
  - apply (R_after (Emit "token" b)).
Qed.

Lemma bootstrap_preserved (w : World) : post (bootstrap w) (R w).
Proof.
  rewrite bootstrap_cases.
  destruct (credentialInitializer (this w)) as [call|]; [|apply R_refl].
  destruct (negb (truthy (access_token (this w)))); [|apply R_refl].
  destruct (call (log w)) as [creds|v]; [|apply R_after].
  destruct (get_prop creds "access_token"); [apply R_after|].
  cbn. apply R_trans with {| this := setCredentials creds (this w); log := log w |}.
  - apply R_store.
  - apply (R_after Initializer).
Qed.

Lemma dispatch_preserved (url : string) (opts : FetchOpts) (w : World) :
  post (dispatch url opts w) (R w).
Proof.
  pose proof (dispatch_ends url opts w) as He.
  destruct (dispatch url opts w); cbn in *; subst; try apply R_after. exact I.
Qed.

Lemma exchange_preserved (o : Outcome JsValue) (w : World) :
  post o (R w) ->
  post (match o with
        | Returns b w' => Returns b (notified b w')
        | Throws e w' => Returns JsUndefined (after (ConsoleError e) w')
        | Pending => Pending
        end) (R w).
Proof.
  destruct o as [b w'|e w'|]; cbn; intros H; [| |exact I].
  - eapply R_trans; [exact H | apply notified_preserved].
  - eapply R_trans; [exact H | apply R_after].
Qed.

Lemma doFetch_preserved (fuel : nat) :
  forall method url query payload options w,
    post (doFetch fuel method url query payload options w) (R w).
Proof.
  induction fuel as [|fuel IH]; intros method url query payload options w.
  - exact I.
  - rewrite doFetch_step.
    pose proof (bootstrap_preserved w) as Hb.
    destruct (bootstrap w) as [[] w0|e w0|]; cbn in Hb; [|exact Hb|exact I].
    cbn zeta.
    pose proof (dispatch_preserved (full_url url query)
      (fetchOpts method payload (with_defaults options) (access_token (this w0))) w0) as Hd.
    destruct (dispatch _ _ w0) as [v w1|e w1|]; cbn in Hd; [| |exact I].
    + cbn. eapply R_trans; eassumption.
    + assert (H1 : R w w1) by (eapply R_trans; eassumption).
      assert (H2 : forall e', post (@Throws JsValue e' (after (ConsoleError e') w1)) (R w)).
      { intros e'. cbn. eapply R_trans; [exact H1 | apply R_after]. }
      destruct e; try apply H2.
      destruct (retry_count (with_defaults options) <? 1); [|exact H1].
      rewrite refreshAccessToken_step.
      pose proof (exchange_preserved _ _
        (IH "POST" token_url JsNull
            (JsString (refresh_grant (refresh_token (this w1)) (this w1)))
            token_options (after (Refreshing (refresh_token (this w1))) w1))) as Hr.
      destruct (doFetch fuel "POST" _ _ _ _ _) as [b wr|e wr|]; cbn in Hr |- *;
        try exact I;
        (eapply post_weaken; [|apply IH]; intros w' Hw';
         eapply R_trans; [exact H1|]; eapply R_trans; [apply R_after|];
         eapply R_trans; [exact Hr | exact Hw']).
Qed.

Lemma perform_preserved (fuel : nat) (c : ApiCall) (w : World) :
  post (perform fuel c w) (R w).
Proof.
  destruct c as [d|code|token|creds]; cbn [perform].
  - destruct (invoke_is_doFetch fuel d w) as (url & query & ->).
    apply doFetch_preserved.
  - rewrite getAccessToken_step. apply exchange_preserved, doFetch_preserved.
  - rewrite refreshAccessToken_step.
    eapply post_weaken; [|apply exchange_preserved, doFetch_preserved].
    intros w' Hw'. eapply R_trans; [apply R_after | exact Hw'].
  - cbn. apply R_store.
Qed.

Lemma session_preserved (fuel : nat) (calls : list ApiCall) :
  forall w w', session fuel calls w = Some w' -> R w w'.
Proof.
  induction calls as [|c rest IH]; intros w w' Hs; cbn in Hs.
  - inversion Hs; subst. apply R_refl.
  - pose proof (perform_preserved fuel c w) as Hp.
    destruct (perform fuel c w) as [v w1|e w1|]; cbn in Hp; [| |discriminate];
      (eapply R_trans; [exact Hp | apply IH, Hs]).
Qed.

End Preserved.

Section Kept.
Context {host : Host}.

Lemma keeps_refl (w : World) : keeps w w.
Proof. unfold keeps; tauto. Qed.

Lemma keeps_trans (w1 w2 w3 : World) : keeps w1 w2 -> keeps w2 w3 -> keeps w1 w3.
Proof.
  unfold keeps. intros (A1 & A2 & A3 & A4 & A5 & A6) (B1 & B2 & B3 & B4 & B5 & B6).
  repeat split; try congruence; auto.
Qed.

Lemma keeps_after (e : Event) (w : World) : keeps w (after e w).
Proof. unfold keeps; cbn; tauto. Qed.

Lemma keeps_store (b : JsValue) (w : World) :
  keeps w {| this := setCredentials b (this w); log := log w |}.
Proof.
  unfold keeps. cbn [this].
  rewrite setCredentials_access, setCredentials_refresh.
  unfold setCredentials at 1 2 3 4.
  destruct (truthy b); [|tauto].
  destruct (truthy (field b "access_token")) eqn:A,
           (truthy (field b "refresh_token")) eqn:Rf; cbn; tauto.
Qed.

(** X9: no sequence of calls of the public methods changes the client id,
    the redirect uri, the base url or the initializer of the connector. *)
Theorem session_keeps_configuration (fuel : nat) (calls : list ApiCall) (w w' : World) :
  session fuel calls w = Some w' ->
  client_id (this w') = client_id (this w) /\
  redirect_uri (this w') = redirect_uri (this w) /\
  base_url (this w') = base_url (this w) /\
  credentialInitializer (this w') = credentialInitializer (this w).
Proof.
  intros Hs.
  pose proof (session_preserved keeps keeps_refl keeps_trans keeps_after keeps_store
                fuel calls w w' Hs) as K.
  unfold keeps in K. tauto.
Qed.

(** X10: a token that is held is never dropped: whatever the calls and
    whatever the server answers, a connector that held an access token
    (a refresh token) before still holds one after. *)
Theorem session_keeps_tokens (fuel : nat) (calls : list ApiCall) (w w' : World) :
  session fuel calls w = Some w' ->
  (truthy (access_token (this w)) = true -> truthy (access_token (this w')) = true) /\
  (truthy (refresh_token (this w)) = true -> truthy (refresh_token (this w')) = true).
Proof.
  intros Hs.
  pose proof (session_preserved keeps keeps_refl keeps_trans keeps_after keeps_store
                fuel calls w w' Hs) as K.
  unfold keeps in K. tauto.
Qed.

End Kept.

(** ** The requests a call sends *)

Section Requests.
Context {host : Host}.

Lemma grows_refl (P : Event -> Prop) (w : World) : grows P w w.
Proof. exists []. split; [symmetry; apply app_nil_r | constructor]. Qed.

Lemma grows_trans (P : Event -> Prop) (w1 w2 w3 : World) :
  grows P w1 w2 -> grows P w2 w3 -> grows P w1 w3.
Proof.
  intros (a & Ha & Pa) (b & Hb & Pb). exists (a ++ b)%list. split.
  - rewrite Hb, Ha, app_assoc. reflexivity.
  - apply Forall_app. split; assumption.
Qed.

Lemma grows_after (P : Event -> Prop) (e : Event) (w : World) :
  P e -> grows P w (after e w).
Proof. intros H. exists [e]. split; [reflexivity | repeat constructor; exact H]. Qed.

Lemma grows_weaken (P Q : Event -> Prop) (w w' : World) :
  (forall e, P e -> Q e) -> grows P w w' -> grows Q w w'.
Proof.
  intros H (a & Ha & Pa). exists a. split; [exact Ha|].
  eapply Forall_impl; [exact H | exact Pa].
Qed.

Lemma grows_notified (P : Event -> Prop) (b : JsValue) (w : World) :
  P (Emit "token" b) -> grows P w (notified b w).
Proof. intros H. exists [Emit "token" b]. split; [reflexivity | repeat constructor; exact H]. Qed.

Lemma bootstrap_grows (P : Event -> Prop) (w : World) :
  P Initializer -> post (bootstrap w) (grows P w).
Proof.
  intros H. rewrite bootstrap_cases.
  destruct (credentialInitializer (this w)) as [call|]; [|apply grows_refl].
  destruct (negb (truthy (access_token (this w)))); [|apply grows_refl].
  destruct (call (log w)) as [creds|v]; [|apply grows_after, H].
  destruct (get_prop creds "access_token"); [apply grows_after, H|].
  cbn. exists [Initializer]. split; [reflexivity | repeat constructor; exact H].
Qed.

Lemma headers_with_defaults (options : option Options) :
  headers (with_defaults options)
  = match options with Some o => headers o | None => None end.
Proof.
  unfold with_defaults. destruct options as [o|]; cbn; [|reflexivity].
  destruct (retries o) as [n|]; [|reflexivity].
  destruct (n =? 0); reflexivity.
Qed.

Lemma issued_refresh (payload : string) (e : Event) :
  (exists token c, payload = refresh_grant token c) ->
  issued "POST" token_url JsNull (JsString payload) token_options e ->
  forall method url query body options, issued method url query body options e.
Proof.
  intros (token & c & ->) H method url query body options.
  destruct e; cbn in *; auto.
  right. destruct H as [[-> (tok & ->)] | H]; [|exact H].
  split; [reflexivity|]. exists token, c.
  apply token_fetchOpts, refresh_grant_truthy.
Qed.

Lemma issued_retry (method url : string) (query payload : JsValue)
    (options : option Options) (n : Z) (e : Event) :
  issued method url query payload
    (Some {| retries := Some n; headers := headers (with_defaults options) |}) e ->
  issued method url query payload options e.
Proof.
  unfold issued. destruct e; auto.
  intros [[-> (tok & ->)] | H]; [left | right; exact H].
  split; [reflexivity|]. exists tok.
  apply fetchOpts_headers.
  rewrite (headers_with_defaults
             (Some {| retries := Some n; headers := headers (with_defaults options) |})).
  reflexivity.
Qed.

Lemma doFetch_issued (fuel : nat) :
  forall method url query payload options w,
    post (doFetch fuel method url query payload options w)
         (grows (issued method url query payload options) w).
Proof.
  induction fuel as [|fuel IH]; intros method url query payload options w.
  - exact I.
  - rewrite doFetch_step.
    pose proof (bootstrap_grows (issued method url query payload options) w I) as Hb.
    destruct (bootstrap w) as [[] w0|e w0|]; cbn in Hb; [|exact Hb|exact I].
    cbn zeta.
    pose proof (dispatch_ends (full_url url query)
      (fetchOpts method payload (with_defaults options) (access_token (this w0))) w0) as Hd.
    assert (H1 : grows (issued method url query payload options) w
                   (after (Fetch (full_url url query)
                      (fetchOpts method payload (with_defaults options)
                         (access_token (this w0)))) w0)).
    { eapply grows_trans; [exact Hb|]. apply grows_after. cbn. left.
      split; [reflexivity | eexists; reflexivity]. }
    destruct (dispatch _ _ w0) as [v w1|e w1|]; cbn in Hd; [| |contradiction]; subst w1.
    + exact H1.
    + assert (H2 : forall e', post (@Throws JsValue e' (after (ConsoleError e')
                 (after (Fetch (full_url url query)
                    (fetchOpts method payload (with_defaults options)
                       (access_token (this w0)))) w0)))
                 (grows (issued method url query payload options) w)).
      { intros e'. cbn. eapply grows_trans; [exact H1 | apply grows_after; exact I]. }
      destruct e; try apply H2.
      destruct (retry_count (with_defaults options) <? 1); [|exact H1].
      rewrite refreshAccessToken_step.
      set (w1 := after (Fetch (full_url url query)
                   (fetchOpts method payload (with_defaults options)
                      (access_token (this w0)))) w0) in *.
      set (held := refresh_token (this w1)).
      pose proof (IH "POST" token_url JsNull (JsString (refresh_grant held (this w1)))
                    token_options (after (Refreshing held) w1)) as Hr.
      assert (Hin : forall wr,
                grows (issued "POST" token_url JsNull
                         (JsString (refresh_grant held (this w1))) token_options)
                      (after (Refreshing held) w1) wr ->
                grows (issued method url query payload options) w wr).
      { intros wr G. eapply grows_trans; [exact H1|].
        eapply grows_trans; [apply (grows_after _ (Refreshing held)); exact I|].
        eapply grows_weaken; [|exact G]. intros e' He'.
        eapply issued_refresh; [eexists _, _; reflexivity | exact He']. }
      destruct (doFetch fuel "POST" token_url JsNull _ token_options _)
        as [b wr|e wr|]; cbn [post] in Hr |- *; [| |exact I].
      * eapply post_weaken; [|apply IH]. intros w' Hw'.
        eapply grows_trans; [apply Hin, Hr|].
        eapply grows_trans; [apply grows_notified; reflexivity|].
        eapply grows_weaken; [|exact Hw']. intros e' He'. eapply issued_retry; exact He'.
      * eapply post_weaken; [|apply IH]. intros w' Hw'.
        eapply grows_trans; [apply Hin, Hr|].
        eapply grows_trans; [apply (grows_after _ (ConsoleError e)); exact I|].
        eapply grows_weaken; [|exact Hw']. intros e' He'. eapply issued_retry; exact He'.
Qed.

(** X1: whatever the server answers, the requests [doFetch] sends while it
    serves a call are requests to the url asked for, built from the same
    method, payload and options (the bearer token they carry is not
    constrained here), and refresh POSTs to the token endpoint; the only
    notifications are [token]; the log is only extended. *)
Theorem doFetch_sends_only_its_request_and_refreshes (fuel : nat)
    (method url : string) (query payload : JsValue) (options : option Options)
    (w w' : World) :
  ends_in (doFetch fuel method url query payload options w) w' ->
  exists added,
    log w' = (log w ++ added)%list /\
    Forall (issued method url query payload options) added.
Proof.
  intros He. pose proof (doFetch_issued fuel method url query payload options w) as H.
  destruct (doFetch _ _ _ _ _ _ _); cbn in *; subst; try contradiction; exact H.
Qed.

Lemma issued_token_post (payload : string) (e : Event) :
  truthy (JsString payload) = true ->
  issued "POST" token_url JsNull (JsString payload) token_options e -> token_post e.
Proof.
  intros Hp. destruct e; cbn; auto.
  intros [[-> (tok & ->)] | [-> (tok & c & ->)]].
  - rewrite (token_fetchOpts _ _ Hp). repeat split.
  - repeat split.
Qed.

(** X2: every request sent during [getAccessToken] or [refreshAccessToken]
    is a POST to the token endpoint whose only header is the form content
    type: the bearer token is never attached to it. *)
Theorem exchanges_only_post_forms (fuel : nat) (w w' : World) :
  (forall code, ends_in (getAccessToken fuel code w) w' ->
     exists added, log w' = (log w ++ added)%list /\ Forall token_post added) /\
  (forall token, ends_in (refreshAccessToken fuel token w) w' ->
     exists added, log w' = (log w ++ added)%list /\ Forall token_post added).
Proof.
  split.
  - intros code He. rewrite getAccessToken_step in He.
    pose proof (doFetch_issued fuel "POST" token_url JsNull
                  (JsString (code_grant code (this w))) token_options w) as H.
    assert (G : grows token_post w w'); [|exact G].
    destruct (doFetch _ _ _ _ _ _ _) as [b w1|e w1|]; cbn in *; subst; try contradiction;
      (eapply grows_trans;
       [eapply grows_weaken; [|exact H]; intros e' He';
        apply (issued_token_post _ e' (code_grant_truthy _ _) He')|]).
    + apply grows_notified. reflexivity.
    + apply grows_after. exact I.
  - intros token He. rewrite refreshAccessToken_step in He.
    pose proof (doFetch_issued fuel "POST" token_url JsNull
                  (JsString (refresh_grant token (this w))) token_options
                  (after (Refreshing token) w)) as H.
    assert (G : grows token_post w w'); [|exact G].
    eapply grows_trans; [apply (grows_after _ (Refreshing token)); exact I|].
    destruct (doFetch _ _ _ _ _ _ _) as [b w1|e w1|]; cbn in *; subst; try contradiction;
      (eapply grows_trans;
       [eapply grows_weaken; [|exact H]; intros e' He';
        apply (issued_token_post _ e' (refresh_grant_truthy _ _) He')|]).
    + apply grows_notified. reflexivity.
    + apply grows_after. exact I.
Qed.

Lemma issued_read_only (url : string) (query : JsValue) (e : Event) :
  issued "GET" url query JsUndefined None e -> read_only e.
Proof.
  destruct e; cbn; auto.
  intros [[-> (tok & ->)] | [-> (tok & c & ->)]].
  - left. split; reflexivity.
  - right. repeat split.
Qed.

(** X3: the domain methods only read: every request sent while one of them
    is served is a [GET] without body, or a form POST to the token endpoint
    made by a refresh. *)
Theorem domain_calls_only_read (fuel : nat) (d : DomainCall) (w w' : World) :
  ends_in (invoke fuel d w) w' ->
  exists added, log w' = (log w ++ added)%list /\ Forall read_only added.
Proof.
  intros He. destruct (invoke_is_doFetch fuel d w) as (url & query & E).
  rewrite E in He.
  pose proof (doFetch_issued fuel "GET" url query JsUndefined None w) as H.
  assert (G : grows read_only w w'); [|exact G].
  destruct (doFetch _ _ _ _ _ _ _); cbn in *; subst; try contradiction;
    (eapply grows_weaken; [|exact H]; intros e' He'; eapply issued_read_only; exact He').
Qed.



End Requests.

(** ** How much a call can cost *)

Section Bounds.
Context {host : Host}.

Lemma bootstrap_settles (w : World) :
  exists w0,
    ends_in (bootstrap w) w0 /\
    forall p, p Initializer = false -> count p (log w0) = count p (log w).
Proof.
  rewrite bootstrap_cases.
  assert (A : forall p, p Initializer = false ->
                count p (log (after Initializer w)) = count p (log w)).
  { intros p Hp. rewrite count_after, Hp. lia. }
  destruct (credentialInitializer (this w)) as [call|]; [|exists w; split; auto; reflexivity].
  destruct (negb (truthy (access_token (this w)))); [|exists w; split; auto; reflexivity].
  destruct (call (log w)) as [creds|v]; [|eexists; split; [reflexivity | exact A]].
  destruct (get_prop creds "access_token"); [eexists; split; [reflexivity | exact A]|].
  eexists; split; [reflexivity|]. exact A.
Qed.

(** With a counter of one or more, [doFetch] is a single dispatch. *)
Lemma doFetch_without_refresh (fuel : nat) (method url : string)
    (query payload : JsValue) (options : option Options) (w : World) :
  (retry_count (with_defaults options) <? 1) = false ->
  exists w',
    ends_in (doFetch (S fuel) method url query payload options w) w' /\
    refresh_calls (log w') = refresh_calls (log w) /\
    (fetch_calls (log w') <= S (fetch_calls (log w)))%nat /\
    token_events (log w') = token_events (log w).
Proof.
  intros Hn. rewrite doFetch_step.
  destruct (bootstrap_settles w) as (w0 & He & Hc).
  pose proof (Hc is_refreshing eq_refl) as C1.
  pose proof (Hc is_fetch eq_refl) as C2.
  pose proof (Hc is_token eq_refl) as C3.
  unfold refresh_calls, fetch_calls, token_events.
  destruct (bootstrap w) as [[] w0'|e w0'|]; cbn in He; subst; try contradiction.
  2:{ exists w0. cbn. repeat split; auto; lia. }
  cbn zeta. rewrite Hn.
  pose proof (dispatch_ends (full_url url query)
    (fetchOpts method payload (with_defaults options) (access_token (this w0))) w0) as Hd.
  destruct (dispatch _ _ w0) as [v w1|e w1|]; cbn in Hd; subst; try contradiction.
  - eexists; split; [reflexivity|]. rewrite !count_after. cbn. repeat split; lia.
  - destruct e; (eexists; split; [reflexivity|]); rewrite !count_after; cbn;
      repeat split; lia.
Qed.

(** X8: a call that arrives with a retry counter of one or more is never
    refreshed: whatever the server answers, it settles after at most one
    request, without entering [refreshAccessToken] and without a [token]
    notification. *)
Theorem counted_call_is_not_refreshed (fuel : nat) (method url : string)
    (query payload : JsValue) (options : option Options) (w : World) :
  1 <= retry_count (with_defaults options) ->
  exists w',
    ends_in (doFetch (S fuel) method url query payload options w) w' /\
    refresh_calls (log w') = refresh_calls (log w) /\
    (fetch_calls (log w') <= S (fetch_calls (log w)))%nat /\
    token_events (log w') = token_events (log w).
Proof.
  intros H. apply doFetch_without_refresh. apply Z.ltb_ge. exact H.
Qed.

(** When the token endpoint never answers 401/403, a refresh settles with one
    more entry and at most one request. *)
Lemma refresh_bounded (fuel : nat) (token : JsValue) (w : World) :
  (forall past opts r,
     fetch past token_url opts = Responds r -> status r <> 401 /\ status r <> 403) ->
  exists v w2,
    refreshAccessToken (S fuel) token w = Returns v w2 /\
    refresh_calls (log w2) = S (refresh_calls (log w)) /\
    (fetch_calls (log w2) <= S (fetch_calls (log w)))%nat.
Proof.
  intros Htok.
  destruct (bootstrap_settles (after (Refreshing token) w)) as (wb & He & Hc).
  pose proof (Hc is_refreshing eq_refl) as C1.
  pose proof (Hc is_fetch eq_refl) as C2.
  rewrite count_after in C1, C2. cbn in C1, C2.
  destruct (bootstrap (after (Refreshing token) w)) as [[] wb'|e wb'|] eqn:Eb;
    cbn in He; subst; try contradiction.
  - destruct (refresh_settles token w wb Eb (fun r => Htok _ _ r)) as (v & w2 & Hall & Hr & Hf).
    exists v, w2. split; [apply Hall|]. split; [exact Hr | lia].
  - exists JsUndefined, (after (ConsoleError e) wb). split.
    + rewrite refreshAccessToken_step, doFetch_step, Eb. reflexivity.
    + unfold refresh_calls, fetch_calls. rewrite !count_after. cbn. lia.
Qed.

(** X4: when the token endpoint never answers 401/403, a call that starts
    with a counter of zero or more always settles, with at most one entry
    into [refreshAccessToken] and at most three requests, whatever the API
    answers. *)
Theorem one_refresh_when_the_token_endpoint_accepts (fuel : nat)
    (method url : string) (query payload : JsValue) (options : option Options)
    (w : World) :
  (forall past opts r,
     fetch past token_url opts = Responds r -> status r <> 401 /\ status r <> 403) ->
  0 <= retry_count (with_defaults options) ->
  exists w',
    ends_in (doFetch (S (S fuel)) method url query payload options w) w' /\
    (refresh_calls (log w') <= S (refresh_calls (log w)))%nat /\
    (fetch_calls (log w') <= 3 + fetch_calls (log w))%nat.
Proof.
  intros Htok H0.
  destruct (retry_count (with_defaults options) <? 1) eqn:Hn.
  2:{ destruct (doFetch_without_refresh (S fuel) method url query payload options w Hn)
        as (w' & He & Hr & Hf & _).
      exists w'. split; [exact He|]. lia. }
  assert (Hz : retry_count (with_defaults options) = 0) by (apply Z.ltb_lt in Hn; lia).
  rewrite doFetch_step.
  destruct (bootstrap_settles w) as (w0 & He & Hc).
  pose proof (Hc is_refreshing eq_refl) as C1.
  pose proof (Hc is_fetch eq_refl) as C2.
  unfold refresh_calls, fetch_calls in *.
  destruct (bootstrap w) as [[] w0'|e w0'|]; cbn in He; subst; try contradiction.
  2:{ exists w0. cbn. repeat split; auto; lia. }
  cbn zeta. rewrite Hn.
  pose proof (dispatch_ends (full_url url query)
    (fetchOpts method payload (with_defaults options) (access_token (this w0))) w0) as Hd.
  destruct (dispatch _ _ w0) as [v w1|e w1|]; cbn in Hd; subst; try contradiction.
  - eexists; split; [reflexivity|]. rewrite !count_after. cbn. lia.
  - assert (Hother : forall e', exists w',
              ends_in (@Throws JsValue e' (after (ConsoleError e')
                (after (Fetch (full_url url query)
                   (fetchOpts method payload (with_defaults options)
                      (access_token (this w0)))) w0))) w' /\
              (count is_refreshing (log w') <= S (count is_refreshing (log w)))%nat /\
              (count is_fetch (log w') <= 3 + count is_fetch (log w))%nat).
    { intros e'. eexists; split; [reflexivity|]. rewrite !count_after. cbn. lia. }
    destruct e; try apply Hother.
    set (w1 := after (Fetch (full_url url query)
                 (fetchOpts method payload (with_defaults options)
                    (access_token (this w0)))) w0).
    destruct (refresh_bounded fuel (refresh_token (this w1)) w1 Htok)
      as (v & w2 & Hr & R2 & F2).
    rewrite Hr.
    destruct (doFetch_without_refresh fuel method url query payload
                (Some {| retries := Some (retry_count (with_defaults options) + 1);
                         headers := headers (with_defaults options) |}) w2)
      as (w' & He' & R3 & F3 & _).
    { rewrite Hz. rewrite with_defaults_retried by lia. reflexivity. }
    exists w'. split; [exact He'|].
    unfold refresh_calls, fetch_calls in *. subst w1.
    rewrite count_after in R2, F2. cbn in R2, F2. lia.
Qed.

End Bounds.

(** ** Errors that are not authentication errors *)

Section Failures.
Context {host : Host}.

(** X6: a request that fails at the transport level makes [doFetch] reject
    with that error, logged once with [console.error]: one request, no
    refresh, no retry. *)
Theorem transport_failure_is_rethrown (fuel : nat) (method url : string)
    (query payload : JsValue) (options : option Options) (w w0 : World)
    (reason : string) :
  let target := full_url url query in
  let opts := fetchOpts method payload (with_defaults options) (access_token (this w0)) in
  bootstrap w = Returns tt w0 ->
  fetch (log w0) target opts = Rejects reason ->
  doFetch (S fuel) method url query payload options w
  = Throws (FetchError reason)
      {| this := this w0;
         log := (log w0 ++ [Fetch target opts; ConsoleError (FetchError reason)])%list |}.
Proof.
  intros target opts Hb Hf. rewrite doFetch_step, Hb. cbn zeta.
  fold target. fold opts. rewrite dispatch_cases, Hf.
  unfold after. cbn [this log]. rewrite <- app_assoc. reflexivity.
Qed.

(** X7: an answer whose body is not JSON makes [doFetch] reject with the
    parse error, logged once, whatever the status: a 401 or 403 with such a
    body is not refreshed and not retried. *)
Theorem unparsable_body_is_rethrown (fuel : nat) (method url : string)
    (query payload : JsValue) (options : option Options) (w w0 : World)
    (r : Response) :
  let target := full_url url query in
  let opts := fetchOpts method payload (with_defaults options) (access_token (this w0)) in
  bootstrap w = Returns tt w0 ->
  fetch (log w0) target opts = Responds r ->
  json r = None ->
  doFetch (S fuel) method url query payload options w
  = Throws (FetchError "invalid-json")
      {| this := this w0;
         log := (log w0 ++ [Fetch target opts;
                            ConsoleError (FetchError "invalid-json")])%list |}.
Proof.
  intros target opts Hb Hf Hj. rewrite doFetch_step, Hb. cbn zeta.
  fold target. fold opts. rewrite dispatch_cases, Hf.
  assert (E : (if ok r then response_json r (after (Fetch target opts) w0)
               else handleNotOk r (after (Fetch target opts) w0))
              = Throws (FetchError "invalid-json") (after (Fetch target opts) w0)).
  { destruct (ok r).
    - unfold response_json. rewrite Hj. reflexivity.
    - rewrite handleNotOk_cases, Hj. reflexivity. }
  rewrite E. unfold after. cbn [this log]. rewrite <- app_assoc. reflexivity.
Qed.

(** X11: when the connector holds no access token and its initializer
    fails, a domain call rejects with what the initializer threw, unlogged
    and before any request; [getAccessToken] swallows the same failure: it
    resolves to [undefined] without having sent the code to the token
    endpoint. *)
Theorem failing_initializer_stops_the_call (fuel : nat) (w : World)
    (initializer : Log -> InitOutcome) (v : JsValue) :
  credentialInitializer (this w) = Some initializer ->
  truthy (access_token (this w)) = false ->
  initializer (log w) = Fails v ->
  (forall d, invoke (S fuel) d w = Throws (Thrown v) (after Initializer w)) /\
  (forall code,
     getAccessToken (S fuel) code w
     = Returns JsUndefined
         {| this := this w;
            log := (log w ++ [Initializer; ConsoleError (Thrown v)])%list |}).
Proof.
  intros Hi Ht Hf.
  assert (Hb : bootstrap w = Throws (Thrown v) (after Initializer w)).
  { rewrite bootstrap_cases, Hi, Ht, Hf. reflexivity. }
  split.
  - intros d. destruct (invoke_is_doFetch (S fuel) d w) as (url & query & ->).
    rewrite doFetch_step, Hb. reflexivity.
  - intros code. rewrite getAccessToken_step, doFetch_step, Hb.
    unfold after. cbn [this log]. rewrite <- app_assoc. reflexivity.
Qed.

End Failures.

(** ** The retry after a granted refresh *)

Section Refreshed.
Context {host : Host}.


End Refreshed.

(** ** setCredentials and getAuthorizationUrl *)

(** X12: [setCredentials] is idempotent: storing the same credentials twice
    leaves the connector as storing them once does. *)
Theorem setCredentials_idempotent (creds : JsValue) (c : TDAConnector) :
  setCredentials creds (setCredentials creds c) = setCredentials creds c.
Proof.
  unfold setCredentials.
  destruct (truthy creds); [|reflexivity].
  destruct (truthy (field creds "access_token")),
           (truthy (field creds "refresh_token")); reflexivity.
Qed.

(** X13: only an object can change the credentials: [setCredentials] of
    [undefined], [null], a boolean, a number, a string or an array returns
    the connector unchanged. *)
Theorem setCredentials_ignores_what_is_not_an_object (creds : JsValue)
    (c : TDAConnector) :
  (forall properties, creds <> JsObject properties) ->
  setCredentials creds c = c.
Proof.
  intros H. unfold setCredentials.
  destruct creds as [| |flag|n|s|elements|properties]; cbn; try reflexivity.
  - destruct flag; reflexivity.
  - destruct (n =? 0); reflexivity.
  - destruct (String.eqb s EmptyString); reflexivity.
  - exfalso. eapply H. reflexivity.
Qed.

Lemma append_cancel_l (p a b : string) : (p ++ a = p ++ b)%string -> a = b.
Proof.
  induction p as [|ch p IH]; cbn; intros H; [exact H|].
  injection H as H. apply IH, H.
Qed.

Lemma append_length (a b : string) :
  String.length (a ++ b) = (String.length a + String.length b)%nat.
Proof. induction a as [|ch a IH]; cbn; [reflexivity | rewrite IH; reflexivity]. Qed.

Lemma append_cancel_r (a b s : string) : (a ++ s = b ++ s)%string -> a = b.
Proof.
  revert b. induction a as [|ch a IH]; intros b H.
  - destruct b as [|ch' b]; [reflexivity|].
    apply (f_equal String.length) in H. cbn in H. rewrite append_length in H. lia.
  - destruct b as [|ch' b].
    + apply (f_equal String.length) in H. cbn in H. rewrite append_length in H. lia.
    + cbn in H. injection H as -> H. f_equal. apply IH, H.
Qed.

(** X14: with an encoder that is injective, as [encodeURIComponent] is,
    [getAuthorizationUrl] gives different client ids different urls for one
    redirect uri: the fixed suffix does not blur them. *)
Theorem getAuthorizationUrl_tells_clients_apart {host : Host}
    (id1 id2 redirect : string) :
  (forall a b, encodeURIComponent a = encodeURIComponent b -> a = b) ->
  getAuthorizationUrl id1 redirect = getAuthorizationUrl id2 redirect ->
  id1 = id2.
Proof.
  intros Hinj H. unfold getAuthorizationUrl in H.
  apply append_cancel_l, append_cancel_l, append_cancel_l, append_cancel_r in H.
  apply Hinj, H.
Qed.

(** ** The first request of a call *)

Section FirstRequest.
Context {host : Host}.

Lemma grows_store (b : JsValue) (w : World) :
  grows (fun _ => True) w {| this := setCredentials b (this w); log := log w |}.
Proof. exists []. split; [symmetry; apply app_nil_r | constructor]. Qed.

Lemma doFetch_first_request (fuel : nat) (method url : string)
    (query payload : JsValue) (options : option Options) (w0 w' : World) :
  ready (this w0) ->
  ends_in (doFetch (S fuel) method url query payload options w0) w' ->
  exists rest,
    log w' = (log w0 ++ Fetch (full_url url query)
                (fetchOpts method payload (with_defaults options)
                   (access_token (this w0))) :: rest)%list.
Proof.
  intros Hr He. rewrite doFetch_step, (bootstrap_ready w0 Hr) in He. cbn zeta in He.
  set (e0 := Fetch (full_url url query)
               (fetchOpts method payload (with_defaults options)
                  (access_token (this w0)))) in *.
  assert (G : grows (fun _ => True) (after e0 w0) w').
  { pose proof (dispatch_ends (full_url url query)
      (fetchOpts method payload (with_defaults options) (access_token (this w0))) w0) as Hd.
    fold e0 in Hd.
    destruct (dispatch _ _ w0) as [v w1|e w1|]; cbn in Hd; subst; try contradiction.
    - cbn in He. subst. apply grows_refl.
    - assert (H2 : forall e', ends_in (@Throws JsValue e' (after (ConsoleError e')
                     (after e0 w0))) w' -> grows (fun _ => True) (after e0 w0) w').
      { intros e' H. cbn in H. subst. apply grows_after. exact I. }
      destruct e; try (eapply H2; exact He).
      destruct (retry_count (with_defaults options) <? 1).
      + pose proof (perform_preserved (grows (fun _ => True)) (grows_refl _)
                      (grows_trans _) (fun e w => grows_after _ e w I) grows_store
                      fuel (RefreshToken (refresh_token (this (after e0 w0))))
                      (after e0 w0)) as Hp.
        cbn [perform] in Hp.
        destruct (refreshAccessToken fuel _ (after e0 w0)) as [v w2|e w2|];
          cbn in Hp; try contradiction.
        * pose proof (doFetch_preserved (grows (fun _ => True)) (grows_refl _)
                        (grows_trans _) (fun e w => grows_after _ e w I) grows_store
                        fuel method url query payload
                        (Some {| retries := Some (retry_count (with_defaults options) + 1);
                                 headers := headers (with_defaults options) |}) w2) as Hq.
          destruct (doFetch fuel _ _ _ _ _ w2); cbn in He, Hq; subst; try contradiction;
            (eapply grows_trans; [exact Hp | exact Hq]).
        * cbn in He. subst. exact Hp.
      + cbn in He. subst. apply grows_refl. }
  destruct G as (rest & Hl & _). exists rest.
  rewrite Hl. cbn [log after]. rewrite <- app_assoc. reflexivity.
Qed.

(** X16: on a connector that needs no bootstrap, the first request of a
    domain call is a [GET] that carries [Authorization: Bearer <token>] when
    an access token is held and no [Authorization] header when none is: the
    call then goes out unauthenticated rather than failing. *)
Theorem first_request_carries_the_held_token (fuel : nat) (d : DomainCall)
    (w w' : World) :
  ready (this w) ->
  ends_in (invoke (S fuel) d w) w' ->
  exists url opts rest,
    log w' = (log w ++ Fetch url opts :: rest)%list /\
    fo_method opts = "GET" /\
    header "Authorization" (fo_headers opts)
    = (if truthy (access_token (this w))
       then Some ("Bearer " ++ interpolate (access_token (this w)))
       else None).
Proof.
  intros Hr He.
  destruct (invoke_is_doFetch (S fuel) d w) as (url & query & E). rewrite E in He.
  destruct (doFetch_first_request fuel "GET" url query JsUndefined None w w' Hr He)
    as (rest & Hl).
  eexists _, _, rest. split; [exact Hl|]. split; [reflexivity|].
  cbn. destruct (truthy (access_token (this w))); reflexivity.
Qed.

End FirstRequest.

(** ** The further properties at concrete exchanges *)

Lemma session_keeps_configuration_witness :
  exists w',
    session (host := stale) 2 [Domain (GetQuote "TSLA"); SetCredentials JsNull]
      (fresh (with_tokens "A" "R")) = Some w' /\
    client_id (this w') = "ABC123".
Proof.
  eexists. split; [vm_compute; reflexivity|].
  eapply (session_keeps_configuration (host := stale) 2
            [Domain (GetQuote "TSLA"); SetCredentials JsNull]
            (fresh (with_tokens "A" "R"))).
  vm_compute. reflexivity.
Defined.

Lemma session_keeps_tokens_witness :
  exists w',
    session (host := expired) 2 [Domain (GetQuote "TSLA"); SetCredentials JsNull]
      (fresh (with_tokens "A" "R")) = Some w' /\
    truthy (access_token (this w')) = true.
Proof.
  eexists. split; [vm_compute; reflexivity|].
  eapply (proj1 (session_keeps_tokens (host := expired) 2
                   [Domain (GetQuote "TSLA"); SetCredentials JsNull]
                   (fresh (with_tokens "A" "R")) _ _)).
  reflexivity.
  Unshelve. vm_compute. reflexivity.
Defined.

Lemma doFetch_sends_only_its_request_and_refreshes_witness :
  exists added,
    log (world_of (doFetch (host := stale) 2 "GET" quotes_url JsUndefined JsUndefined
                     None (fresh (with_tokens "A" "R")))
           (fresh (with_tokens "A" "R")))
    = (log (fresh (with_tokens "A" "R")) ++ added)%list /\
    Forall (issued (host := stale) "GET" quotes_url JsUndefined JsUndefined None) added.
Proof.
  apply (doFetch_sends_only_its_request_and_refreshes (host := stale) 2 "GET"
           quotes_url JsUndefined JsUndefined None (fresh (with_tokens "A" "R"))).
  vm_compute. reflexivity.
Defined.

Lemma exchanges_only_post_forms_witness :
  exists added,
    log (world_of (getAccessToken (host := issuing) 1 "c0de"
                     (fresh (with_tokens "A" "R")))
           (fresh (with_tokens "A" "R")))
    = (log (fresh (with_tokens "A" "R")) ++ added)%list /\
    Forall token_post added.
Proof.
  apply (proj1 (exchanges_only_post_forms (host := issuing) 1
                  (fresh (with_tokens "A" "R")) _) "c0de").
  vm_compute. reflexivity.
Defined.

Lemma domain_calls_only_read_witness :
  exists added,
    log (world_of (invoke (host := stale) 2 (GetQuote "TSLA")
                     (fresh (with_tokens "A" "R")))
           (fresh (with_tokens "A" "R")))
    = (log (fresh (with_tokens "A" "R")) ++ added)%list /\
    Forall read_only added.
Proof.
  apply (domain_calls_only_read (host := stale) 2 (GetQuote "TSLA")
           (fresh (with_tokens "A" "R"))).
  vm_compute. reflexivity.
Defined.


Lemma counted_call_is_not_refreshed_witness :
  exists w',
    ends_in (doFetch (host := always_rejecting) 1 "GET" quotes_url JsUndefined
               JsUndefined (Some {| retries := Some 1; headers := None |})
               (fresh (with_tokens "A" "R"))) w' /\
    refresh_calls (log w') = refresh_calls (log (fresh (with_tokens "A" "R"))) /\
    (fetch_calls (log w') <= S (fetch_calls (log (fresh (with_tokens "A" "R")))))%nat /\
    token_events (log w') = token_events (log (fresh (with_tokens "A" "R"))).
Proof.
  apply (counted_call_is_not_refreshed (host := always_rejecting) 0 "GET" quotes_url
           JsUndefined JsUndefined (Some {| retries := Some 1; headers := None |})
           (fresh (with_tokens "A" "R"))).
  cbn. lia.
Defined.

Lemma one_refresh_when_the_token_endpoint_accepts_witness :
  exists w',
    ends_in (doFetch (host := guarded) 2 "GET" quotes_url JsUndefined JsUndefined None
               (fresh (with_tokens "A" "R"))) w' /\
    (refresh_calls (log w') <= S (refresh_calls (log (fresh (with_tokens "A" "R")))))%nat /\
    (fetch_calls (log w') <= 3 + fetch_calls (log (fresh (with_tokens "A" "R"))))%nat.
Proof.
  apply (one_refresh_when_the_token_endpoint_accepts (host := guarded) 0 "GET"
           quotes_url JsUndefined JsUndefined None (fresh (with_tokens "A" "R"))).
  - intros past opts r H. vm_compute in H. injection H as <-. cbn. split; discriminate.
  - cbn. lia.
Defined.

Lemma transport_failure_is_rethrown_witness :
  exists w',
    doFetch (host := down) 1 "GET" quotes_url JsUndefined JsUndefined None
      (fresh (with_tokens "A" "R"))
    = Throws (FetchError "ECONNREFUSED") w'.
Proof.
  eexists.
  apply (transport_failure_is_rethrown (host := down) 0 "GET" quotes_url JsUndefined
           JsUndefined None (fresh (with_tokens "A" "R")) (fresh (with_tokens "A" "R"))
           "ECONNREFUSED" eq_refl eq_refl).
Defined.

Lemma unparsable_body_is_rethrown_witness :
  exists w',
    doFetch (host := garbled) 1 "GET" quotes_url JsUndefined JsUndefined None
      (fresh (with_tokens "A" "R"))
    = Throws (FetchError "invalid-json") w'.
Proof.
  eexists.
  apply (unparsable_body_is_rethrown (host := garbled) 0 "GET" quotes_url JsUndefined
           JsUndefined None (fresh (with_tokens "A" "R")) (fresh (with_tokens "A" "R"))
           {| status := 401; json := None |} eq_refl eq_refl eq_refl).
Defined.

Lemma failing_initializer_stops_the_call_witness :
  invoke (host := down) 1 (GetQuote "TSLA") (fresh failing_initializer)
  = Throws (Thrown (JsString "no store")) (after Initializer (fresh failing_initializer)).
Proof.
  apply (proj1 (failing_initializer_stops_the_call (host := down) 0
                  (fresh failing_initializer)
                  (fun _ => Fails (JsString "no store")) (JsString "no store")
                  eq_refl eq_refl eq_refl)).
Defined.


Lemma setCredentials_ignores_what_is_not_an_object_witness :
  setCredentials (JsString "A2") (with_tokens "A" "R") = with_tokens "A" "R".
Proof.
  apply (setCredentials_ignores_what_is_not_an_object (JsString "A2")
           (with_tokens "A" "R")).
  intros properties. discriminate.
Defined.

Lemma getAuthorizationUrl_tells_clients_apart_witness : "ABC123" = "ABC123".
Proof.
  apply (getAuthorizationUrl_tells_clients_apart (host := down) "ABC123" "ABC123"
           "https://x/cb").
  - intros a b H. exact H.
  - reflexivity.
Defined.

Lemma first_request_carries_the_held_token_witness :
  exists url opts rest,
    log (world_of (invoke (host := serving) 1 (GetQuote "TSLA")
                     (fresh (with_tokens "A" "R")))
           (fresh (with_tokens "A" "R")))
    = (log (fresh (with_tokens "A" "R")) ++ Fetch url opts :: rest)%list /\
    fo_method opts = "GET" /\
    header "Authorization" (fo_headers opts) = Some "Bearer A".
Proof.
  apply (first_request_carries_the_held_token (host := serving) 0 (GetQuote "TSLA")
           (fresh (with_tokens "A" "R"))).
  - left. reflexivity.
  - vm_compute. reflexivity.
Defined.
